(** * DevCollab: the room-coordination server (server/socket.js)

    A shallow embedding of the Socket.IO event handlers installed by
    [initializeSocket], and the properties of the room engine proved (or
    refuted) against them.

    Conventions of the embedding.
    - The four module-level objects [userSocketMap], [roomCodeMap],
      [roomUsers] and [roomMessages] are plain JS objects used as maps.
      Their own properties are finite maps keyed by property name (a
      string); indexing an object with a value converts the value to a
      property name ([prop_key]).
    - The handlers are given in two layers.  [join], [code_change],
      [sync_code], [send_message], [fetch_messages] and [disconnecting] are
      what the handlers compute when every property they read is an own
      property or absent, that is for room ids whose property name is not
      inherited from [Object.prototype] ([plain]).  [on_join],
      [on_code_change], [on_sync_code], [on_send_message],
      [on_fetch_messages] and [on_disconnecting] are the handlers for any
      room id: they read through the prototype chain ([js_get], [js_set])
      and end in [Returns] or, where the source calls a method on an
      inherited value, in [Throws].  The lemmas [on_join_plain] ...
      [on_run_from_plain] show that the two layers agree on plain room
      ids; a statement about what a handler does for a room carries
      [plain] as a hypothesis and states the normal return ([returns_as]).
    - A payload field is either missing ([JUndef]) or a string ([JStr]), as
      sent by the clients of this repository.
    - Socket.IO itself is not part of the repository.  Its adapter is
      modelled from its documentation: a socket joins the room named by its
      own id when it connects; [join]/[leave] add and remove a socket from a
      room; [io.to(r)] reaches the sockets of room [r]; [socket.to(r)]
      reaches them except the sender; [socket.emit] reaches the socket
      itself; after the "disconnecting" listeners ran the socket leaves all
      its rooms.  Sets and Maps iterate in insertion order, so the adapter is
      one list of (room, socket) pairs in join order.
    - [Date.now()] and [new Date()] are inputs of the SEND_MESSAGE handler. *)

From stdpp Require Import gmap strings list fin_maps.

Local Open Scope string_scope.
Local Open Scope list_scope.
Local Open Scope nat_scope.

#[local] Set Warnings "-clear-no-such-hyp".

(** ** JavaScript values carried by payloads *)

Inductive jsval : Type :=
| JUndef
| JStr (s : string).

#[global] Instance jsval_eq_dec : EqDecision jsval.
Proof. solve_decision. Defined.

Definition jsval_to_option (v : jsval) : option string :=
  match v with JUndef => None | JStr s => Some s end.

Definition jsval_of_option (o : option string) : jsval :=
  match o with None => JUndef | Some s => JStr s end.

#[global] Instance jsval_countable : Countable jsval.
Proof.
  apply (inj_countable' jsval_to_option jsval_of_option).
  by intros [].
Defined.

(** [if (v)]: [undefined] and the empty string are falsy. *)
Definition truthy (v : jsval) : bool :=
  match v with
  | JUndef => false
  | JStr s => negb (String.eqb s "")
  end.

(** [obj[v]]: the property name a value is converted to. *)
Definition prop_key (v : jsval) : string :=
  match v with
  | JUndef => "undefined"
  | JStr s => s
  end.

(** ** Messages and server state *)

(** [{ id, username, message, timestamp }]; [msg_timestamp] is the instant
    that [toISOString] renders. *)
Record messageData : Type := MessageData {
  msg_id : Z;
  msg_username : jsval;
  msg_message : jsval;
  msg_timestamp : Z;
}.

#[global] Instance messageData_eq_dec : EqDecision messageData.
Proof. solve_decision. Defined.

Record state : Type := State {
  userSocketMap : gmap string jsval;
  roomCodeMap : gmap string jsval;
  roomUsers : gmap string (gset jsval);
  roomMessages : gmap string (list messageData);
  (** [io.sockets.sockets]: ids of the connected sockets *)
  sockets : list string;
  (** the adapter: (room, socket id) pairs in join order *)
  joined : list (jsval * string);
}.

Definition initial : state :=
  State ∅ ∅ ∅ ∅ [] [].

Definition set_userSocketMap (f : gmap string jsval → gmap string jsval)
    (st : state) : state :=
  State (f (userSocketMap st)) (roomCodeMap st) (roomUsers st)
        (roomMessages st) (sockets st) (joined st).

Definition set_roomCodeMap (f : gmap string jsval → gmap string jsval)
    (st : state) : state :=
  State (userSocketMap st) (f (roomCodeMap st)) (roomUsers st)
        (roomMessages st) (sockets st) (joined st).

Definition set_roomUsers
    (f : gmap string (gset jsval) → gmap string (gset jsval))
    (st : state) : state :=
  State (userSocketMap st) (roomCodeMap st) (f (roomUsers st))
        (roomMessages st) (sockets st) (joined st).

Definition set_roomMessages
    (f : gmap string (list messageData) → gmap string (list messageData))
    (st : state) : state :=
  State (userSocketMap st) (roomCodeMap st) (roomUsers st)
        (f (roomMessages st)) (sockets st) (joined st).

Definition set_sockets (f : list string → list string) (st : state) : state :=
  State (userSocketMap st) (roomCodeMap st) (roomUsers st)
        (roomMessages st) (f (sockets st)) (joined st).

Definition set_joined
    (f : list (jsval * string) → list (jsval * string))
    (st : state) : state :=
  State (userSocketMap st) (roomCodeMap st) (roomUsers st)
        (roomMessages st) (sockets st) (f (joined st)).

(** [userSocketMap[sid]] *)
Definition lookup_user (st : state) (sid : string) : jsval :=
  default JUndef (userSocketMap st !! sid).

(** The own property [roomCodeMap[roomId]], [undefined] when there is none;
    the value the expression reads when [roomId] is [plain] ([js_get] is
    the read in general). *)
Definition lookup_code (st : state) (roomId : jsval) : jsval :=
  default JUndef (roomCodeMap st !! prop_key roomId).

(** The usernames held by the own property [roomUsers[roomId]], none when
    there is no set. *)
Definition members (st : state) (roomId : jsval) : gset jsval :=
  default ∅ (roomUsers st !! prop_key roomId).

(** [roomMessages[roomId] || []] over the own properties; the value the
    expression reads when [roomId] is [plain]. *)
Definition lookup_messages (st : state) (roomId : jsval) : list messageData :=
  default [] (roomMessages st !! prop_key roomId).

(** ** The Socket.IO adapter *)

(** [Array.from(io.sockets.adapter.rooms.get(roomId) || [])] *)
Definition room_sockets (st : state) (roomId : jsval) : list string :=
  (filter (λ p, p.1 = roomId) (joined st)).*2.

(** [Array.from(socket.rooms)] *)
Definition socket_rooms (st : state) (sid : string) : list jsval :=
  (filter (λ p, p.2 = sid) (joined st)).*1.

(** [socket.join(roomId)] *)
Definition join_room (roomId : jsval) (sid : string)
    (j : list (jsval * string)) : list (jsval * string) :=
  if decide ((roomId, sid) ∈ j) then j else j ++ [(roomId, sid)].

(** [socket.leave(roomId)] *)
Definition leave_room (roomId : jsval) (sid : string)
    (j : list (jsval * string)) : list (jsval * string) :=
  filter (λ p, p ≠ (roomId, sid)) j.

(** ** Outgoing events *)

Inductive payload : Type :=
| Joined (clients : list (string * jsval)) (username : jsval) (socketId : string)
| CodeChange (code : jsval)
| ReceiveMessage (m : messageData)
| FetchMessages (messages : list messageData)
| Disconnected (socketId : string) (username : jsval).

Inductive target : Type :=
| ToRoom (roomId : jsval)                        (* io.to(roomId) *)
| ToRoomExcept (roomId : jsval) (sender : string) (* socket.to(roomId) *)
| ToSocket (sid : string).                       (* socket.emit *)

#[global] Instance target_eq_dec : EqDecision target.
Proof. solve_decision. Defined.

Record emission : Type := Emission {
  em_target : target;
  em_recipients : list string;
  em_payload : payload;
}.

#[global] Instance payload_eq_dec : EqDecision payload.
Proof. solve_decision. Defined.

#[global] Instance emission_eq_dec : EqDecision emission.
Proof. solve_decision. Defined.

(** The sockets an emission reaches, decided when it is emitted. *)
Definition recipients (st : state) (t : target) : list string :=
  match t with
  | ToRoom r => room_sockets st r
  | ToRoomExcept r sender => filter (λ s, s ≠ sender) (room_sockets st r)
  | ToSocket sid => [sid]
  end.

Definition emit (st : state) (t : target) (p : payload) : emission :=
  Emission t (recipients st t) p.

(** ** getAllConnectedClients *)

(** [Map.prototype.set]: an existing key keeps its position. *)
Fixpoint map_set (k : jsval) (v : string) (m : list (jsval * string))
    : list (jsval * string) :=
  match m with
  | [] => [(k, v)]
  | (k', v') :: m' =>
      if decide (k' = k) then (k, v) :: m' else (k', v') :: map_set k v m'
  end.

Definition add_client (st : state) (uniqueUsers : list (jsval * string))
    (socketId : string) : list (jsval * string) :=
  let username := lookup_user st socketId in
  if truthy username then map_set username socketId uniqueUsers
  else uniqueUsers.

Definition getAllConnectedClients (st : state) (roomId : jsval)
    : list (string * jsval) :=
  (λ e, (e.2, e.1)) <$> foldl (add_client st) [] (room_sockets st roomId).

(** ** Handlers

    The handlers of this section are the source's for room ids whose
    property name is not inherited: every [obj[roomId]] reads an own
    property or [undefined], and no method call fails.  The handlers for
    any room id are [on_join] ... [on_disconnecting] further down, which
    agree with these on [plain] room ids. *)

(** Body of the [existingSockets.forEach] callback of JOIN. *)
Definition evict (roomId username : jsval) (self : string)
    (st : state) (existingSocketId : string) : state :=
  if decide (lookup_user st existingSocketId = username) then
    if decide (existingSocketId ∈ sockets st ∧ existingSocketId ≠ self) then
      set_userSocketMap (delete existingSocketId)
        (set_joined (leave_room roomId existingSocketId) st)
    else st
  else st.

(** JOIN, lines 44-77, on a [plain] room id. *)
Definition join (st : state) (sid : string) (roomId username : jsval)
    : state * list emission :=
  let st1 := foldl (evict roomId username sid) st (room_sockets st roomId) in
  let st2 := set_joined (join_room roomId sid)
               (set_userSocketMap <[sid := username]> st1) in
  let st3 := set_roomUsers
               <[prop_key roomId := {[username]} ∪ members st2 roomId]> st2 in
  let clients := getAllConnectedClients st3 roomId in
  let joinedEv := emit st3 (ToRoom roomId) (Joined clients username sid) in
  let codeEv :=
    if truthy (lookup_code st3 roomId)
    then [emit st3 (ToSocket sid) (CodeChange (lookup_code st3 roomId))]
    else [] in
  let st4 :=
    match roomMessages st3 !! prop_key roomId with
    | Some _ => st3
    | None => set_roomMessages <[prop_key roomId := []]> st3
    end in
  (st4, joinedEv :: codeEv).

(** CODE_CHANGE, lines 80-83, on a [plain] room id. *)
Definition code_change (st : state) (sid : string) (roomId code : jsval)
    : state * list emission :=
  let st1 := set_roomCodeMap <[prop_key roomId := code]> st in
  (st1, [emit st1 (ToRoomExcept roomId sid) (CodeChange code)]).

(** SYNC_CODE, lines 86-93, on a [plain] room id. *)
Definition sync_code (st : state) (sid : string)
    (socketId roomId code : jsval) : state * list emission :=
  let st1 :=
    if decide (code ≠ JUndef)
    then set_roomCodeMap <[prop_key roomId := code]> st
    else st in
  (st1,
   if truthy (lookup_code st1 roomId)
   then [emit st1 (ToRoom socketId) (CodeChange (lookup_code st1 roomId))]
   else []).

(** [push] followed by [slice(-100)] when the length exceeds 100. *)
Definition push_bounded (log : list messageData) (m : messageData)
    : list messageData :=
  let log' := log ++ [m] in
  if decide (100 < length log') then drop (length log' - 100) log' else log'.

(** SEND_MESSAGE, lines 96-107, on a [plain] room id. *)
Definition send_message (st : state) (sid : string)
    (roomId message username : jsval) (now ts : Z)
    : state * list emission :=
  let messageData := MessageData now username message ts in
  let st1 :=
    set_roomMessages
      <[prop_key roomId := push_bounded (lookup_messages st roomId) messageData]>
      st in
  (st1, [emit st1 (ToRoom roomId) (ReceiveMessage messageData)]).

(** FETCH_MESSAGES, lines 110-114, on a [plain] room id. *)
Definition fetch_messages (st : state) (sid : string) (roomId : jsval)
    : state * list emission :=
  (st, [emit st (ToSocket sid) (FetchMessages (lookup_messages st roomId))]).

(** [.some((sid) => sid !== socket.id && userSocketMap[sid] === username)] *)
Definition hasOtherConnections (st : state) (sid : string) (roomId : jsval)
    : bool :=
  existsb
    (λ s, bool_decide (s ≠ sid ∧ lookup_user st s = lookup_user st sid))
    (room_sockets st roomId).

(** [roomUsers[roomId].delete(username)] and the clean-up that follows it. *)
Definition remove_member (st : state) (roomId username : jsval) : state :=
  match roomUsers st !! prop_key roomId with
  | Some users =>
      let users' := users ∖ {[username]} in
      if decide (size users' = 0) then
        set_roomMessages (delete (prop_key roomId))
          (set_roomCodeMap (delete (prop_key roomId))
             (set_roomUsers (delete (prop_key roomId)) st))
      else set_roomUsers <[prop_key roomId := users']> st
  | None => st
  end.

(** Body of the [rooms.forEach] callback of "disconnecting". *)
Definition disconnecting_room (sid : string)
    (acc : state * list emission) (roomId : jsval) : state * list emission :=
  let st := acc.1 in
  if decide (roomId ≠ JStr sid) then
    let username := lookup_user st sid in
    if hasOtherConnections st sid roomId then acc
    else
      (remove_member st roomId username,
       acc.2 ++ [emit st (ToRoomExcept roomId sid) (Disconnected sid username)])
  else acc.

(** "disconnecting", lines 117-139, for a socket whose rooms are [plain]. *)
Definition disconnecting (st : state) (sid : string) : state * list emission :=
  let r := foldl (disconnecting_room sid) (st, []) (socket_rooms st sid) in
  (set_userSocketMap (delete sid) r.1, r.2).

(** A socket connects: it is registered and joins the room of its own id. *)
Definition connect (st : state) (sid : string) : state :=
  if decide (sid ∈ sockets st) then st
  else set_joined (join_room (JStr sid) sid) (set_sockets (λ l, l ++ [sid]) st).

(** A socket closes: the "disconnecting" listener runs, then the socket
    leaves every room and is forgotten. *)
Definition disconnect (st : state) (sid : string) : state * list emission :=
  let r := disconnecting st sid in
  (set_sockets (filter (λ s, s ≠ sid))
     (set_joined (filter (λ p, p.2 ≠ sid)) r.1),
   r.2).

(** ** The server as a transition system *)

Inductive event : Type :=
| EConnect (sid : string)
| EJoin (sid : string) (roomId username : jsval)
| ECodeChange (sid : string) (roomId code : jsval)
| ESyncCode (sid : string) (socketId roomId code : jsval)
| ESendMessage (sid : string) (roomId message username : jsval) (now ts : Z)
| EFetchMessages (sid : string) (roomId : jsval)
| EDisconnect (sid : string).

#[global] Instance event_eq_dec : EqDecision event.
Proof. solve_decision. Defined.

Definition event_socket (ev : event) : string :=
  match ev with
  | EConnect sid | EJoin sid _ _ | ECodeChange sid _ _
  | ESyncCode sid _ _ _ | ESendMessage sid _ _ _ _ _
  | EFetchMessages sid _ | EDisconnect sid => sid
  end.

(** Only a connected socket delivers events to its listeners.  [step] is
    the server on events that name [plain] rooms; [on_step] is the server
    on any event. *)
Definition step (st : state) (ev : event) : state * list emission :=
  match ev with
  | EConnect sid => (connect st sid, [])
  | _ =>
      if decide (event_socket ev ∈ sockets st) then
        match ev with
        | EConnect sid => (st, [])
        | EJoin sid roomId username => join st sid roomId username
        | ECodeChange sid roomId code => code_change st sid roomId code
        | ESyncCode sid socketId roomId code =>
            sync_code st sid socketId roomId code
        | ESendMessage sid roomId message username now ts =>
            send_message st sid roomId message username now ts
        | EFetchMessages sid roomId => fetch_messages st sid roomId
        | EDisconnect sid => disconnect st sid
        end
      else (st, [])
  end.

Definition run_from (st : state) (tr : list event) : state * list emission :=
  foldl (λ acc ev, let r := step acc.1 ev in (r.1, acc.2 ++ r.2)) (st, []) tr.

Definition run (tr : list event) : state * list emission :=
  run_from initial tr.

(** ** Chat history as a sequence of calls *)

(** The last [n] elements of a list: [l.slice(-n)]. *)
Definition last_n {A} (n : nat) (l : list A) : list A :=
  drop (length l - n) l.

(** One SEND_MESSAGE call, as seen by the chat log. *)
Record send : Type := Send {
  s_sid : string;
  s_message : jsval;
  s_username : jsval;
  s_now : Z;
  s_ts : Z;
}.

(** The message object the handler builds for a call. *)
Definition created (s : send) : messageData :=
  MessageData (s_now s) (s_username s) (s_message s) (s_ts s).

(** Successive SEND_MESSAGE calls to one room. *)
Definition send_all (st : state) (roomId : jsval) (sends : list send) : state :=
  foldl
    (λ st s,
       (send_message st (s_sid s) roomId (s_message s) (s_username s)
          (s_now s) (s_ts s)).1)
    st sends.

(** ** Relations and predicates used to state the properties *)

(** What one round of the eviction loop may do to the state: it only
    removes adapter pairs and registry entries. *)
Definition shrinks (roomId : jsval) (self : string) (st st' : state) : Prop :=
  roomCodeMap st' = roomCodeMap st
  ∧ roomUsers st' = roomUsers st
  ∧ roomMessages st' = roomMessages st
  ∧ sockets st' = sockets st
  ∧ (∀ p, p ∈ joined st' → p ∈ joined st)
  ∧ (∀ p, p ∈ joined st → p.1 ≠ roomId ∨ p.2 = self → p ∈ joined st')
  ∧ (∀ x, userSocketMap st' !! x = None
          ∨ userSocketMap st' !! x = userSocketMap st !! x)
  ∧ userSocketMap st' !! self = userSocketMap st !! self.

(** The rooms for which the "disconnecting" listener acts: not the socket's
    own room, and no other socket of the room carries the same username. *)
Definition active_rooms (st : state) (sid : string) (l : list jsval)
    : list jsval :=
  filter (λ r, r ≠ JStr sid ∧ hasOtherConnections st sid r = false) l.

(** The DISCONNECTED notice sent for a room. *)
Definition notice (st : state) (sid : string) (roomId : jsval) : emission :=
  emit st (ToRoomExcept roomId sid) (Disconnected sid (lookup_user st sid)).

(** Between [st] and [st'] the state stored under property name [k] either
    kept its code and messages (and its membership set, if any, still
    exists), or lost membership set, code and messages at once. *)
Definition together (st st' : state) (k : string) : Prop :=
  (roomCodeMap st' !! k = roomCodeMap st !! k
   ∧ roomMessages st' !! k = roomMessages st !! k
   ∧ (roomUsers st' !! k = None ↔ roomUsers st !! k = None))
  ∨ (roomUsers st' !! k = None
     ∧ roomCodeMap st' !! k = None
     ∧ roomMessages st' !! k = None).

(** Every membership set that exists holds somebody. *)
Definition sets_nonempty (st : state) : Prop :=
  ∀ k users, roomUsers st !! k = Some users → users ≠ ∅.

(** A socket is registered to a username in a room: it is in the room and
    the registry maps it to the username (the test of JOIN and of
    "disconnecting"). *)
Definition registered (st : state) (sid : string) (roomId username : jsval)
    : Prop :=
  sid ∈ room_sockets st roomId ∧ lookup_user st sid = username.

(** The events of a session in which connections [c1] and [c2] connect,
    join [roomId] as [username], and disconnect. *)
Definition session_event (c1 c2 : string) (roomId username : jsval)
    (ev : event) : Prop :=
  ev = EConnect c1 ∨ ev = EConnect c2
  ∨ ev = EJoin c1 roomId username ∨ ev = EJoin c2 roomId username
  ∨ ev = EDisconnect c1 ∨ ev = EDisconnect c2.

#[global] Instance session_event_dec c1 c2 roomId username ev :
  Decision (session_event c1 c2 roomId username ev).
Proof. unfold session_event. apply _. Defined.

(** What holds throughout such a session. *)
Definition session_inv (c1 c2 : string) (roomId username : jsval)
    (st : state) : Prop :=
  (∀ p, p ∈ joined st →
        (p.1 = roomId ∨ p.1 = JStr p.2)
        ∧ (p.2 = c1 ∨ p.2 = c2)
        ∧ p.2 ∈ sockets st)
  ∧ (∀ s, s ∈ room_sockets st roomId → lookup_user st s = username)
  ∧ (username ∈ members st roomId ↔ ∃ s, s ∈ room_sockets st roomId).

(** ** Sample sessions *)

(** The scenario of the specification: "A" joins room "r1" on socket "a",
    "B" joins it on socket "b" and says "hi". *)
Definition demo : list event :=
  [ EConnect "a"; EConnect "b";
    EJoin "a" (JStr "r1") (JStr "A");
    EJoin "b" (JStr "r1") (JStr "B");
    ESendMessage "b" (JStr "r1") (JStr "hi") (JStr "B") 10 10 ].

(** A burst of 101 chat messages from socket "b". *)
Definition burst : list send :=
  (λ i, Send "b" (JStr "hi") (JStr "B") (Z.of_nat i) (Z.of_nat i)) <$> seq 0 101.


(** Two chat messages handled within the same millisecond. *)
Definition same_tick : list event :=
  demo ++
  [ ESendMessage "a" (JStr "r1") (JStr "one") (JStr "A") 1000 1000;
    ESendMessage "b" (JStr "r1") (JStr "two") (JStr "B") 1000 1000 ].

(** Socket "s1" edits room "r9" without anybody having joined it. *)
Definition edit_unjoined : list event :=
  [ EConnect "s1"; ECodeChange "s1" (JStr "r9") (JStr "x") ].

(** Socket "a" is alone in room "r1", which has code and one message. *)
Definition solo : list event :=
  [ EConnect "a";
    EJoin "a" (JStr "r1") (JStr "A");
    ECodeChange "a" (JStr "r1") (JStr "x");
    ESendMessage "a" (JStr "r1") (JStr "hi") (JStr "A") 10 10 ].

(** User "A" is in room "r1" on socket "a", then opens a second socket "b". *)
Definition two_tabs : list event :=
  [ EConnect "a"; EConnect "b"; EJoin "a" (JStr "r1") (JStr "A") ].


(** Users "A" (socket "a") and "B" (socket "b") share room "r1". *)
Definition pair : list event :=
  [ EConnect "a"; EConnect "b";
    EJoin "a" (JStr "r1") (JStr "A");
    EJoin "b" (JStr "r1") (JStr "B") ].

(** Sockets "a" and "b" of room "r1" both carry the username "A": "b"
    joined "r1" as "B" and then joined "r2" as "A", which overwrote its
    registry entry. *)
Definition shared_name : list event :=
  [ EConnect "a"; EConnect "b";
    EJoin "a" (JStr "r1") (JStr "A");
    EJoin "b" (JStr "r1") (JStr "B");
    EJoin "b" (JStr "r2") (JStr "A") ].

(** User "A" opens socket "a", then socket "b" (which evicts "a"), and
    closes "a". *)
Definition reconnect : list event :=
  [ EConnect "a"; EJoin "a" (JStr "r1") (JStr "A");
    EConnect "b"; EJoin "b" (JStr "r1") (JStr "A");
    EDisconnect "a" ].

(** Socket "a" joins, as "A", the room named by its own id. *)
Definition private_joined : list event :=
  [ EConnect "a"; EConnect "b"; EJoin "a" (JStr "a") (JStr "A") ].

(** ... and then closes. *)
Definition private_join : list event :=
  private_joined ++ [ EDisconnect "a" ].

(** ** Further predicates on states and events *)

(** No chat log holds more than 100 messages. *)
Definition logs_bounded (st : state) : Prop :=
  ∀ k log, roomMessages st !! k = Some log → length log ≤ 100.

(** The registry and the adapter mention connected sockets only, and
    neither the adapter nor the socket table holds duplicates. *)
Definition connected_only (st : state) : Prop :=
  (∀ s, is_Some (userSocketMap st !! s) → s ∈ sockets st)
  ∧ (∀ r s, s ∈ room_sockets st r → s ∈ sockets st)
  ∧ NoDup (sockets st)
  ∧ NoDup (joined st).

(** Events that leave the code stored under property name [k] alone:
    anything but a CODE_CHANGE for that name, a SYNC_CODE for that name
    that supplies code, and a disconnect (which may destroy the room). *)
Definition keeps_code (k : string) (ev : event) : Prop :=
  match ev with
  | ECodeChange _ roomId _ => prop_key roomId ≠ k
  | ESyncCode _ _ roomId code => prop_key roomId ≠ k ∨ code = JUndef
  | EDisconnect _ => False
  | _ => True
  end.

#[global] Instance keeps_code_dec k ev : Decision (keeps_code k ev).
Proof. destruct ev; simpl; apply _. Defined.

(** A SEND_MESSAGE event addressed to [roomId]. *)
Definition is_send_to (roomId : jsval) (ev : event) : Prop :=
  match ev with
  | ESendMessage _ r _ _ _ _ => r = roomId
  | _ => False
  end.

#[global] Instance is_send_to_dec roomId ev : Decision (is_send_to roomId ev).
Proof. destruct ev; simpl; apply _. Defined.

(** ** The chat panel of the client (client/src/components/Chat.jsx) *)

(** [handleFetchedMessages]: [setMessages(data.messages || [])]; the
    argument is the [messages] field of the reply, if it has one. *)
Definition handleFetchedMessages (data_messages : option (list messageData))
    : list messageData :=
  default [] data_messages.

(** [handleNewMessage]: [setMessages((prev) => [...prev, messageData])] *)
Definition handleNewMessage (prev : list messageData) (m : messageData)
    : list messageData :=
  prev ++ [m].

(** The two listeners the panel registers: FETCH_MESSAGES replaces the
    list, RECEIVE_MESSAGE extends it; other events do not reach it. *)
Definition chat_on (messages : list messageData) (p : payload)
    : list messageData :=
  match p with
  | FetchMessages ms => handleFetchedMessages (Some ms)
  | ReceiveMessage m => handleNewMessage messages m
  | _ => messages
  end.

(** The list shown by the panel of socket [c] after the server's
    emissions [out] were delivered in order. *)
Definition chat_view (c : string) (messages : list messageData)
    (out : list emission) : list messageData :=
  foldl
    (λ msgs em,
       if decide (c ∈ em_recipients em) then chat_on msgs (em_payload em)
       else msgs)
    messages out.

(** ** The handlers with the prototype chain of the four objects

    [roomCodeMap], [roomUsers] and [roomMessages] are created as [{}], so
    they inherit the properties of [Object.prototype].  A room id whose
    property name is one of those reads an inherited value (a function, or
    the prototype itself for "__proto__") where an ordinary name reads
    [undefined], and a handler that then calls [.add], [.push] or [.delete]
    on it raises a TypeError.  The definitions of this section follow the
    handlers through those cases; [join], [code_change], [sync_code],
    [send_message] and [fetch_messages] above are the same handlers on room
    ids whose property name is not inherited ([plain]), where no such case
    arises.  [userSocketMap] is indexed by socket ids only, which the
    transport generates. *)

(** The property names every [{}] inherits. *)
Definition object_prototype : list string :=
  [ "constructor"; "__defineGetter__"; "__defineSetter__"; "hasOwnProperty";
    "__lookupGetter__"; "__lookupSetter__"; "isPrototypeOf";
    "propertyIsEnumerable"; "toString"; "valueOf"; "__proto__";
    "toLocaleString" ].

(** A room id whose property name is not inherited. *)
Definition plain (roomId : jsval) : Prop :=
  prop_key roomId ∉ object_prototype.

#[global] Instance plain_dec roomId : Decision (plain roomId).
Proof. unfold plain. apply _. Defined.

(** What [obj[k]] yields: the object's own property, a property inherited
    from [Object.prototype], or [undefined]. *)
Inductive slot (A : Type) : Type :=
| Own (v : A)
| Proto (name : string)
| Missing.
Arguments Own {A} v.
Arguments Proto {A} name.
Arguments Missing {A}.

(** [obj[k]].  "__proto__" is an accessor: it always reads the prototype. *)
Definition js_get {A} (obj : gmap string A) (k : string) : slot A :=
  if decide (k = "__proto__") then Proto k
  else
    match obj !! k with
    | Some v => Own v
    | None => if decide (k ∈ object_prototype) then Proto k else Missing
    end.

(** [obj[k] = v] for a value that is not an object: the setter of
    "__proto__" ignores it, any other name becomes an own property. *)
Definition js_set {A} (obj : gmap string A) (k : string) (v : A)
    : gmap string A :=
  if decide (k = "__proto__") then obj else <[k := v]> obj.

(** What goes on the wire: an event whose payload is data, or a CODE_CHANGE
    or FETCH_MESSAGES event whose [code] or [messages] field is the value
    inherited under [name]. *)
Inductive wire : Type :=
| Wire (em : emission)
| WireCodeProto (t : target) (rcpts : list string) (name : string)
| WireMessagesProto (t : target) (rcpts : list string) (name : string).

#[global] Instance wire_eq_dec : EqDecision wire.
Proof. solve_decision. Defined.

(** How a handler ends: it returns, or it raises a TypeError; either way
    with the state as it is at that point and the events sent so far. *)
Inductive outcome : Type :=
| Returns (st : state) (out : list wire)
| Throws (st : state) (out : list wire).

(** A handler returned normally and did what the pair [r] says. *)
Definition returns_as (o : outcome) (r : state * list emission) : Prop :=
  o = Returns r.1 (Wire <$> r.2).

(** JOIN, lines 44-77. *)
Definition on_join (st : state) (sid : string) (roomId username : jsval)
    : outcome :=
  let st1 := foldl (evict roomId username sid) st (room_sockets st roomId) in
  let st2 := set_joined (join_room roomId sid)
               (set_userSocketMap <[sid := username]> st1) in
  let k := prop_key roomId in
  let add users :=
    let st3 := set_roomUsers <[k := {[username]} ∪ users]> st2 in
    let clients := getAllConnectedClients st3 roomId in
    let joinedEv := Wire (emit st3 (ToRoom roomId)
                            (Joined clients username sid)) in
    let codeEv :=
      match js_get (roomCodeMap st3) k with
      | Own code =>
          if truthy code
          then [Wire (emit st3 (ToSocket sid) (CodeChange code))] else []
      | Proto name => [WireCodeProto (ToSocket sid) [sid] name]
      | Missing => []
      end in
    let st4 :=
      match js_get (roomMessages st3) k with
      | Missing => set_roomMessages <[k := []]> st3
      | _ => st3
      end in
    Returns st4 (joinedEv :: codeEv) in
  match js_get (roomUsers st2) k with
  | Missing => add ∅                   (* a new Set is stored first *)
  | Own users => add users
  | Proto _ => Throws st2 []           (* line 63: .add is not a function *)
  end.

(** CODE_CHANGE, lines 80-83. *)
Definition on_code_change (st : state) (sid : string) (roomId code : jsval)
    : outcome :=
  let st1 := set_roomCodeMap (λ m, js_set m (prop_key roomId) code) st in
  Returns st1 [Wire (emit st1 (ToRoomExcept roomId sid) (CodeChange code))].

(** SYNC_CODE, lines 86-93. *)
Definition on_sync_code (st : state) (sid : string)
    (socketId roomId code : jsval) : outcome :=
  let st1 :=
    if decide (code ≠ JUndef)
    then set_roomCodeMap (λ m, js_set m (prop_key roomId) code) st
    else st in
  Returns st1
    match js_get (roomCodeMap st1) (prop_key roomId) with
    | Own stored =>
        if truthy stored
        then [Wire (emit st1 (ToRoom socketId) (CodeChange stored))] else []
    | Proto name =>
        [WireCodeProto (ToRoom socketId) (recipients st1 (ToRoom socketId)) name]
    | Missing => []
    end.

(** SEND_MESSAGE, lines 96-107. *)
Definition on_send_message (st : state) (sid : string)
    (roomId message username : jsval) (now ts : Z) : outcome :=
  let messageData := MessageData now username message ts in
  let k := prop_key roomId in
  let push log :=
    let st1 := set_roomMessages <[k := push_bounded log messageData]> st in
    Returns st1 [Wire (emit st1 (ToRoom roomId) (ReceiveMessage messageData))] in
  match js_get (roomMessages st) k with
  | Missing => push []                 (* an empty array is stored first *)
  | Own log => push log
  | Proto _ => Throws st []            (* line 101: .push is not a function *)
  end.

(** FETCH_MESSAGES, lines 110-114. *)
Definition on_fetch_messages (st : state) (sid : string) (roomId : jsval)
    : outcome :=
  Returns st
    match js_get (roomMessages st) (prop_key roomId) with
    | Own log => [Wire (emit st (ToSocket sid) (FetchMessages log))]
    | Proto name => [WireMessagesProto (ToSocket sid) [sid] name]
    | Missing => [Wire (emit st (ToSocket sid) (FetchMessages []))]
    end.

(** Body of the [rooms.forEach] callback of "disconnecting", lines 119-137;
    once an exception is raised the loop is left. *)
Definition on_disconnecting_room (sid : string) (acc : outcome)
    (roomId : jsval) : outcome :=
  match acc with
  | Throws _ _ => acc
  | Returns st out =>
      if decide (roomId ≠ JStr sid) then
        let username := lookup_user st sid in
        if hasOtherConnections st sid roomId then acc
        else
          let k := prop_key roomId in
          let out' :=
            out ++ [Wire (emit st (ToRoomExcept roomId sid)
                            (Disconnected sid username))] in
          match js_get (roomUsers st) k with
          | Missing => Returns st out'
          | Own users =>
              let users' := users ∖ {[username]} in
              if decide (size users' = 0) then
                Returns
                  (set_roomMessages (delete k)
                     (set_roomCodeMap (delete k)
                        (set_roomUsers (delete k) st)))
                  out'
              else Returns (set_roomUsers <[k := users']> st) out'
          | Proto _ => Throws st out'  (* line 128: .delete is not a function *)
          end
      else acc
  end.

(** "disconnecting", lines 117-139. *)
Definition on_disconnecting (st : state) (sid : string) : outcome :=
  match foldl (on_disconnecting_room sid) (Returns st [])
          (socket_rooms st sid) with
  | Returns st' out => Returns (set_userSocketMap (delete sid) st') out
  | Throws st' out => Throws st' out
  end.

(** Whether an event names plain rooms only. *)
Definition plain_event (ev : event) : Prop :=
  match ev with
  | EJoin _ roomId _ | ECodeChange _ roomId _ | ESyncCode _ _ roomId _
  | ESendMessage _ roomId _ _ _ _ | EFetchMessages _ roomId => plain roomId
  | EConnect _ | EDisconnect _ => True
  end.

#[global] Instance plain_event_dec ev : Decision (plain_event ev).
Proof. destruct ev; simpl; apply _. Defined.

(** Events after which socket [e] is still out of room [roomId]: anything
    but a JOIN of [e] for that room and a new connection under the id [e]. *)
Definition stays_out (e : string) (roomId : jsval) (ev : event) : Prop :=
  match ev with
  | EJoin sid r _ => ¬ (sid = e ∧ r = roomId)
  | EConnect sid => sid ≠ e
  | _ => True
  end.

#[global] Instance stays_out_dec e roomId ev : Decision (stays_out e roomId ev).
Proof. destruct ev; simpl; apply _. Defined.

(** Socket "c" is connected but has joined no room; "a" and "b" share "r1". *)
Definition bystander : list event :=
  [ EConnect "a"; EConnect "b"; EConnect "c";
    EJoin "a" (JStr "r1") (JStr "A");
    EJoin "b" (JStr "r1") (JStr "B") ].

(** ** The server with the prototype chain, as a transition system *)

(** A socket closes, lines 117-139 and the adapter's cleanup that follows
    the listener. *)
Definition on_disconnect (st : state) (sid : string) : outcome :=
  match on_disconnecting st sid with
  | Returns st' out =>
      Returns
        (set_sockets (filter (λ s, s ≠ sid))
           (set_joined (filter (λ p, p.2 ≠ sid)) st'))
        out
  | Throws st' out => Throws st' out
  end.

(** Only a connected socket delivers events to its listeners. *)
Definition on_step (st : state) (ev : event) : outcome :=
  match ev with
  | EConnect sid => Returns (connect st sid) []
  | _ =>
      if decide (event_socket ev ∈ sockets st) then
        match ev with
        | EConnect sid => Returns st []
        | EJoin sid roomId username => on_join st sid roomId username
        | ECodeChange sid roomId code => on_code_change st sid roomId code
        | ESyncCode sid socketId roomId code =>
            on_sync_code st sid socketId roomId code
        | ESendMessage sid roomId message username now ts =>
            on_send_message st sid roomId message username now ts
        | EFetchMessages sid roomId => on_fetch_messages st sid roomId
        | EDisconnect sid => on_disconnect st sid
        end
      else Returns st []
  end.

(** The next event of a session.  The session is followed up to the first
    handler that raises: no handler of the file catches, and what becomes
    of the process after an uncaught exception is outside the file. *)
Definition then_step (acc : outcome) (ev : event) : outcome :=
  match acc with
  | Throws _ _ => acc
  | Returns st out =>
      match on_step st ev with
      | Returns st' out' => Returns st' (out ++ out')
      | Throws st' out' => Throws st' (out ++ out')
      end
  end.

Definition on_run_from (st : state) (tr : list event) : outcome :=
  foldl then_step (Returns st []) tr.

Definition on_run (tr : list event) : outcome :=
  on_run_from initial tr.

(** Every room a socket is in, apart from its own, has a plain name. *)
Definition plain_rooms (st : state) : Prop :=
  Forall (λ p, p.1 = JStr p.2 ∨ plain p.1) (joined st).

#[global] Instance plain_rooms_dec st : Decision (plain_rooms st).
Proof. unfold plain_rooms. apply _. Defined.

(** A JOIN of the room "constructor" by a connected socket. *)
Definition inherited_join : list event :=
  [ EConnect "a"; EJoin "a" (JStr "constructor") (JStr "A");
    ESendMessage "a" (JStr "r1") (JStr "hi") (JStr "A") 10 10 ].

(** * Properties *)

(** Closed facts about concrete sessions are settled by evaluation. *)
Ltac by_eval := apply (bool_decide_unpack _); vm_compute; exact I.

(** ** On plain room ids the handlers run without exception *)

Lemma plain_not_proto r : plain r → prop_key r ≠ "__proto__".
Proof. unfold plain. intros Hp Heq. apply Hp. rewrite Heq. by_eval. Qed.

Lemma js_get_plain {A} (obj : gmap string A) r :
  plain r →
  js_get obj (prop_key r)
  = match obj !! prop_key r with Some v => Own v | None => Missing end.
Proof.
  intros Hp. unfold js_get.
  rewrite decide_False by (by apply plain_not_proto).
  destruct (obj !! prop_key r); [done|]. by rewrite decide_False.
Qed.

Lemma js_set_plain {A} (obj : gmap string A) r v :
  plain r → js_set obj (prop_key r) v = <[prop_key r := v]> obj.
Proof.
  intros Hp. unfold js_set. by rewrite decide_False by (by apply plain_not_proto).
Qed.

Lemma on_join_plain st sid r u :
  plain r → returns_as (on_join st sid r u) (join st sid r u).
Proof.
  intros Hp. unfold returns_as, on_join, join, members, lookup_code.
  rewrite !js_get_plain by done. cbn [fst snd].
  set (st2 := set_joined _ _).
  destruct (roomUsers st2 !! prop_key r) as [users|]; cbn [default from_option id];
    rewrite ?js_get_plain by done;
    set (st3 := set_roomUsers _ st2);
    destruct (roomCodeMap st3 !! prop_key r) as [code|]; cbn [default from_option id];
    destruct (roomMessages st3 !! prop_key r); cbn [fst snd];
    try destruct (truthy code); done.
Qed.

Lemma on_code_change_plain st sid r code :
  plain r → returns_as (on_code_change st sid r code) (code_change st sid r code).
Proof.
  intros Hp. unfold returns_as, on_code_change, code_change, set_roomCodeMap.
  by rewrite js_set_plain.
Qed.

Lemma on_sync_code_plain st sid t r code :
  plain r → returns_as (on_sync_code st sid t r code) (sync_code st sid t r code).
Proof.
  intros Hp. unfold returns_as, on_sync_code, sync_code, lookup_code,
    set_roomCodeMap.
  rewrite js_set_plain by done. cbn [fst snd].
  set (st1 := if decide (code ≠ JUndef) then _ else st).
  rewrite js_get_plain by done.
  destruct (roomCodeMap st1 !! prop_key r) as [stored|]; cbn [default from_option id];
    [by destruct (truthy stored)|done].
Qed.

Lemma on_send_message_plain st sid r m u now ts :
  plain r →
  returns_as (on_send_message st sid r m u now ts)
    (send_message st sid r m u now ts).
Proof.
  intros Hp. unfold returns_as, on_send_message, send_message, lookup_messages.
  rewrite js_get_plain by done.
  by destruct (roomMessages st !! prop_key r).
Qed.

Lemma on_fetch_messages_plain st sid r :
  plain r →
  returns_as (on_fetch_messages st sid r) (fetch_messages st sid r).
Proof.
  intros Hp. unfold returns_as, on_fetch_messages, fetch_messages,
    lookup_messages.
  rewrite js_get_plain by done.
  by destruct (roomMessages st !! prop_key r).
Qed.

Lemma on_disconnecting_room_plain sid r st out :
  (r ≠ JStr sid → plain r) →
  on_disconnecting_room sid (Returns st (Wire <$> out)) r
  = Returns (disconnecting_room sid (st, out) r).1
      (Wire <$> (disconnecting_room sid (st, out) r).2).
Proof.
  intros Hp. unfold on_disconnecting_room, disconnecting_room. cbn [fst snd].
  case_decide as Hown; [|done]. specialize (Hp Hown).
  destruct (hasOtherConnections st sid r); [done|].
  rewrite js_get_plain by done. unfold remove_member. cbn [fst snd].
  rewrite fmap_app.
  destruct (roomUsers st !! prop_key r) as [users|]; [|done].
  by case_decide.
Qed.

Lemma on_disconnecting_plain st sid :
  (∀ r, r ∈ socket_rooms st sid → r ≠ JStr sid → plain r) →
  returns_as (on_disconnecting st sid) (disconnecting st sid).
Proof.
  intros Hp. unfold returns_as, on_disconnecting, disconnecting.
  assert (Hfold : ∀ l acc,
    (∀ r, r ∈ l → r ≠ JStr sid → plain r) →
    foldl (on_disconnecting_room sid) (Returns acc.1 (Wire <$> acc.2)) l
    = Returns (foldl (disconnecting_room sid) acc l).1
        (Wire <$> (foldl (disconnecting_room sid) acc l).2)).
  { induction l as [|r l IH]; intros [s out] Hl; [done|]. cbn [foldl fst snd].
    rewrite on_disconnecting_room_plain by (apply Hl; by left).
    apply (IH (disconnecting_room sid (s, out) r)).
    intros r' Hr'. apply Hl. by right. }
  specialize (Hfold (socket_rooms st sid) (st, []) Hp).
  cbn [fst snd fmap list_fmap] in Hfold. by rewrite Hfold.
Qed.

Lemma plain_missing : plain JUndef.
Proof. by_eval. Qed.

Example demo_members :
  members (run demo).1 (JStr "r1") = {[JStr "A"; JStr "B"]}.
Proof. vm_compute. reflexivity. Qed.

(** The events of the scenario, followed by the departure of "A". *)
Example demo_events :
  (run (demo ++ [EDisconnect "a"])).2
  = [ Emission (ToRoom (JStr "r1")) ["a"]
        (Joined [("a", JStr "A")] (JStr "A") "a");
      Emission (ToRoom (JStr "r1")) ["a"; "b"]
        (Joined [("a", JStr "A"); ("b", JStr "B")] (JStr "B") "b");
      Emission (ToRoom (JStr "r1")) ["a"; "b"]
        (ReceiveMessage (MessageData 10 (JStr "B") (JStr "hi") 10));
      Emission (ToRoomExcept (JStr "r1") "a") ["b"]
        (Disconnected "a" (JStr "A")) ]
  ∧ elements (members (run (demo ++ [EDisconnect "a"])).1 (JStr "r1"))
    = [JStr "B"].
Proof. split; vm_compute; reflexivity. Qed.

(** ** Bounded chat history *)

Lemma push_bounded_last_n log m :
  push_bounded log m = last_n 100 (log ++ [m]).
Proof.
  unfold push_bounded, last_n. case_decide as H; [done|].
  replace (length (log ++ [m]) - 100) with 0 by lia. done.
Qed.

Lemma last_n_length {A} n (l : list A) : length (last_n n l) ≤ n.
Proof. unfold last_n. rewrite length_drop. lia. Qed.

Lemma last_n_snoc {A} n (l : list A) x :
  0 < n → last_n n (last_n n l ++ [x]) = last_n n (l ++ [x]).
Proof.
  intros Hn. unfold last_n. rewrite !length_app, length_drop. simpl.
  destruct (decide (length l ≤ n)) as [Hle|Hgt].
  - replace (length l - n) with 0 by lia. simpl.
    by replace (length l - 0) with (length l) by lia.
  - replace (length l - (length l - n) + 1 - n) with 1 by lia.
    replace (length l + 1 - n) with (S (length l - n)) by lia.
    rewrite (drop_app_le l [x] (S _)) by lia.
    rewrite (drop_app_le (drop _ l) [x] 1) by (rewrite length_drop; lia).
    rewrite drop_drop. by replace (length l - n + 1) with (S (length l - n)) by lia.
Qed.

Lemma last_n_app_ge {A} n (l1 l2 : list A) :
  n ≤ length l2 → last_n n (l1 ++ l2) = last_n n l2.
Proof.
  intros Hn. unfold last_n. rewrite length_app.
  rewrite drop_app_ge by lia. f_equal. lia.
Qed.

Lemma lookup_messages_send st sid roomId message username now ts :
  lookup_messages (send_message st sid roomId message username now ts).1 roomId
  = last_n 100 (lookup_messages st roomId
                  ++ [MessageData now username message ts]).
Proof.
  unfold send_message, lookup_messages at 1. simpl.
  rewrite lookup_insert_eq. simpl. apply push_bounded_last_n.
Qed.

Lemma send_all_snoc st roomId sends s :
  send_all st roomId (sends ++ [s])
  = (send_message (send_all st roomId sends) (s_sid s) roomId (s_message s)
       (s_username s) (s_now s) (s_ts s)).1.
Proof. unfold send_all. by rewrite foldl_app. Qed.

Lemma lookup_messages_send_all st roomId sends :
  sends ≠ [] →
  lookup_messages (send_all st roomId sends) roomId
  = last_n 100 (lookup_messages st roomId ++ (created <$> sends)).
Proof.
  induction sends as [|s sends IH] using rev_ind; [done|]. intros _.
  rewrite send_all_snoc, lookup_messages_send.
  destruct sends as [|s0 sends0]; [done|].
  rewrite IH by done. rewrite last_n_snoc by lia.
  by rewrite (fmap_app _ _ [s]), app_assoc.
Qed.

(** ** Who receives a broadcast *)

Lemma recipients_room st r c :
  c ∈ recipients st (ToRoom r) ↔ c ∈ room_sockets st r.
Proof. done. Qed.

Lemma recipients_room_except st r sender c :
  c ∈ recipients st (ToRoomExcept r sender) ↔ c ∈ room_sockets st r ∧ c ≠ sender.
Proof. simpl. by rewrite list_elem_of_filter, (comm and). Qed.

(** X17. On a room whose property name is not inherited every SEND_MESSAGE
    returns normally and leaves at most 100 messages in the room's log, and
    after more than 100 of them FETCH_MESSAGES answers the requester with
    exactly the last 100 messages created, in the order they were sent. *)
Theorem chat_history_bounded (st : state) (roomId : jsval)
    (sends : list send) (fetcher : string) :
  plain roomId →
  100 < length sends →
  returns_as (on_fetch_messages (send_all st roomId sends) fetcher roomId)
    (send_all st roomId sends,
     [Emission (ToSocket fetcher) [fetcher]
        (FetchMessages (drop (length sends - 100) (created <$> sends)))])
  ∧ length (drop (length sends - 100) (created <$> sends)) = 100
  ∧ ∀ st0 sid message username now ts,
      returns_as (on_send_message st0 sid roomId message username now ts)
        (send_message st0 sid roomId message username now ts)
      ∧ length (lookup_messages
                  (send_message st0 sid roomId message username now ts).1
                  roomId)
        ≤ 100.
Proof.
  intros Hp Hlen. split_and!.
  - pose proof (on_fetch_messages_plain (send_all st roomId sends) fetcher
                  roomId Hp) as Hret.
    unfold returns_as in *. rewrite Hret. cbn [fst snd]. do 2 f_equal.
    unfold fetch_messages, emit. cbn [snd recipients]. do 3 f_equal.
    rewrite lookup_messages_send_all by (intros ->; simpl in Hlen; lia).
    rewrite last_n_app_ge by (rewrite length_fmap; lia).
    unfold last_n. by rewrite length_fmap.
  - rewrite length_drop, length_fmap. lia.
  - intros. split; [by apply on_send_message_plain|].
    rewrite lookup_messages_send. apply last_n_length.
Qed.

Lemma chat_history_bounded_witness :
  returns_as
    (on_fetch_messages (send_all (run demo).1 (JStr "r1") burst) "a"
       (JStr "r1"))
    (send_all (run demo).1 (JStr "r1") burst,
     [Emission (ToSocket "a") ["a"]
        (FetchMessages (drop (length burst - 100) (created <$> burst)))]).
Proof.
  apply (chat_history_bounded (run demo).1 (JStr "r1") burst "a").
  - by_eval.
  - vm_compute. lia.
Defined.

(** C2 (the code at the failing input): a SEND_MESSAGE for the room
    "constructor" finds the inherited function under [roomMessages[roomId]],
    so no array is stored and [.push] raises a TypeError: the handler ends
    there, with nothing stored and nothing relayed, however many times it
    is called; and a FETCH_MESSAGES for that room is answered with that
    function, not with messages. *)
Theorem send_to_inherited_room_raises :
  on_send_message (run demo).1 "a" (JStr "constructor") (JStr "hi") (JStr "A")
    10 10
  = Throws (run demo).1 []
  ∧ on_fetch_messages (run demo).1 "a" (JStr "constructor")
    = Returns (run demo).1
        [WireMessagesProto (ToSocket "a") ["a"] "constructor"].
Proof.
  assert (Hnone : roomMessages (run demo).1 !! "constructor" = None)
    by (by vm_compute).
  unfold on_send_message, on_fetch_messages, js_get. cbn [prop_key].
  rewrite decide_False by by_eval. rewrite Hnone.
  rewrite decide_True by by_eval. done.
Qed.

(** C5 (as stated, refuted): socket "c" is connected but has not joined
    room "r1"; its SEND_MESSAGE for "r1" returns normally and is relayed to
    the sockets of the room, "a" and "b": the sender gets no echo. *)
Lemma outsider_gets_no_echo :
  returns_as
    (on_send_message (run bystander).1 "c" (JStr "r1") (JStr "hi") (JStr "C")
       10 10)
    (send_message (run bystander).1 "c" (JStr "r1") (JStr "hi") (JStr "C")
       10 10)
  ∧ ¬ Exists (λ em, "c" ∈ em_recipients em)
        (send_message (run bystander).1 "c" (JStr "r1") (JStr "hi") (JStr "C")
           10 10).2.
Proof. split; [apply on_send_message_plain|]; by_eval. Qed.

(** C5 (amended): CODE_CHANGE always returns, and its relay reaches exactly
    the sockets of the room other than the sender.  SEND_MESSAGE for a room
    whose property name is not inherited returns, and its relay reaches
    exactly the sockets of the room: the sender when it is in the room, and
    not the sender when it is not. *)
Theorem broadcast_asymmetry (st : state) (sid : string)
    (roomId code message username : jsval) (now ts : Z) :
  (∃ st1 rc,
     on_code_change st sid roomId code
     = Returns st1
         [Wire (Emission (ToRoomExcept roomId sid) rc (CodeChange code))]
     ∧ (sid ∉ rc)
     ∧ ∀ c, c ∈ rc ↔ c ∈ room_sockets st roomId ∧ c ≠ sid)
  ∧ (plain roomId →
     ∃ st1 rc,
       on_send_message st sid roomId message username now ts
       = Returns st1
           [Wire (Emission (ToRoom roomId) rc
                    (ReceiveMessage (MessageData now username message ts)))]
       ∧ (∀ c, c ∈ rc ↔ c ∈ room_sockets st roomId)
       ∧ (sid ∈ room_sockets st roomId → sid ∈ rc)
       ∧ (sid ∉ room_sockets st roomId → sid ∉ rc)).
Proof.
  split.
  - eexists _, _. split; [reflexivity|]. split.
    + intros [_ Hne]%(recipients_room_except st). by apply Hne.
    + intros c. exact (recipients_room_except st roomId sid c).
  - intros Hp.
    pose proof (on_send_message_plain st sid roomId message username now ts Hp)
      as Hret.
    unfold returns_as in Hret. rewrite Hret.
    eexists _, _. split; [reflexivity|].
    split_and!;
      [intros c; exact (recipients_room st roomId c)
      |exact (λ H, H) | exact (λ H, H)].
Qed.

Lemma broadcast_asymmetry_witness :
  ∃ st1 rc,
    on_send_message (run demo).1 "a" (JStr "r1") (JStr "yo") (JStr "A") 11 11
    = Returns st1
        [Wire (Emission (ToRoom (JStr "r1")) rc
                 (ReceiveMessage (MessageData 11 (JStr "A") (JStr "yo") 11)))]
    ∧ "a" ∈ rc.
Proof.
  destruct (proj2 (broadcast_asymmetry (run demo).1 "a" (JStr "r1") JUndef
                     (JStr "yo") (JStr "A") 11 11))
    as (st1 & rc & Hret & _ & Hin & _).
  - by_eval.
  - exists st1, rc. split; [exact Hret|]. apply Hin. by_eval.
Defined.

(** C7 (as stated, refuted): a CODE_CHANGE whose payload has no roomId is
    not a no-op; it changes the shared state. *)
Lemma missing_roomId_not_noop :
  ¬ ((code_change (connect initial "s1") "s1" JUndef (JStr "x")).1
     = connect initial "s1").
Proof.
  intros H. apply (f_equal (λ s, roomCodeMap s !! "undefined")) in H.
  vm_compute in H. discriminate.
Qed.

(** C7 (amended): a missing field reaches the handler as [undefined].
    With the roomId missing every handler returns normally, as it does for
    the room "undefined", and CODE_CHANGE stores the code under that
    property name.  SYNC_CODE without code and FETCH_MESSAGES return and
    leave the shared state as it was.  CODE_CHANGE without code returns
    and, for a room whose property name is not inherited, leaves the
    buffer reading [undefined].  For such a room JOIN without username
    returns, registers the socket under [undefined] and adds [undefined]
    to the room's membership, and SEND_MESSAGE without message and
    username returns and appends to the log. *)
Theorem missing_field_behaviour (st : state) (sid : string)
    (socketId roomId code message username : jsval) (now ts : Z) :
  (returns_as (on_join st sid JUndef username) (join st sid JUndef username)
   ∧ returns_as (on_code_change st sid JUndef code)
       (code_change st sid JUndef code)
   ∧ returns_as (on_sync_code st sid socketId JUndef code)
       (sync_code st sid socketId JUndef code)
   ∧ returns_as (on_send_message st sid JUndef message username now ts)
       (send_message st sid JUndef message username now ts)
   ∧ returns_as (on_fetch_messages st sid JUndef) (fetch_messages st sid JUndef)
   ∧ roomCodeMap (code_change st sid JUndef code).1 !! "undefined" = Some code)
  ∧ (∃ out, on_sync_code st sid socketId roomId JUndef = Returns st out)
  ∧ (∃ out, on_fetch_messages st sid roomId = Returns st out)
  ∧ (∃ st1 out,
       on_code_change st sid roomId JUndef = Returns st1 out
       ∧ (plain roomId → lookup_code st1 roomId = JUndef))
  ∧ (plain roomId →
     returns_as (on_join st sid roomId JUndef) (join st sid roomId JUndef)
     ∧ userSocketMap (join st sid roomId JUndef).1 !! sid = Some JUndef
     ∧ JUndef ∈ members (join st sid roomId JUndef).1 roomId)
  ∧ (plain roomId →
     returns_as (on_send_message st sid roomId JUndef JUndef now ts)
       (send_message st sid roomId JUndef JUndef now ts)
     ∧ last (lookup_messages
               (send_message st sid roomId JUndef JUndef now ts).1 roomId)
       = Some (MessageData now JUndef JUndef ts)).
Proof.
  split_and!.
  - apply on_join_plain, plain_missing.
  - apply on_code_change_plain, plain_missing.
  - apply on_sync_code_plain, plain_missing.
  - apply on_send_message_plain, plain_missing.
  - apply on_fetch_messages_plain, plain_missing.
  - simpl. apply lookup_insert_eq.
  - by eexists.
  - by eexists.
  - eexists _, _. split; [reflexivity|]. intros Hp.
    unfold lookup_code. cbn [roomCodeMap set_roomCodeMap].
    by rewrite js_set_plain, lookup_insert_eq.
  - intros Hp. split_and!.
    + by apply on_join_plain.
    + unfold join. simpl.
      destruct (roomMessages _ !! _); simpl; apply lookup_insert_eq.
    + unfold join, members at 1. simpl.
      destruct (roomMessages _ !! _); simpl; rewrite lookup_insert_eq;
        set_solver.
  - intros Hp. split; [by apply on_send_message_plain|].
    unfold lookup_messages at 1. simpl. rewrite lookup_insert_eq. simpl.
    rewrite push_bounded_last_n. unfold last_n. rewrite length_app. simpl.
    rewrite drop_app_le by lia. apply last_snoc.
Qed.

Lemma missing_field_behaviour_witness :
  JUndef ∈ members (join (run two_tabs).1 "b" (JStr "r1") JUndef).1 (JStr "r1").
Proof.
  destruct (missing_field_behaviour (run two_tabs).1 "b" JUndef (JStr "r1")
              JUndef JUndef JUndef 0 0)
    as (_ & _ & _ & _ & Hjoin & _).
  apply Hjoin. by_eval.
Defined.

(** C9 (the code at the failing input): two messages sent to one room within
    the same millisecond are different messages with the same id. *)
Theorem message_ids_collide :
  ∃ m1 m2,
    lookup_messages (run same_tick).1 (JStr "r1") !! 1 = Some m1
    ∧ lookup_messages (run same_tick).1 (JStr "r1") !! 2 = Some m2
    ∧ msg_message m1 = JStr "one" ∧ msg_message m2 = JStr "two"
    ∧ msg_id m1 = msg_id m2.
Proof. do 2 eexists. vm_compute. done. Qed.

(** ** The adapter: membership of rooms *)

Lemma elem_of_room_sockets st r s :
  s ∈ room_sockets st r ↔ (r, s) ∈ joined st.
Proof.
  unfold room_sockets. rewrite list_elem_of_fmap. split.
  - intros ([r' s'] & -> & [Hr Hin]%list_elem_of_filter). simpl in *. by subst.
  - intros Hin. exists (r, s). split; [done|]. by apply list_elem_of_filter.
Qed.

Lemma elem_of_socket_rooms st s r :
  r ∈ socket_rooms st s ↔ (r, s) ∈ joined st.
Proof.
  unfold socket_rooms. rewrite list_elem_of_fmap. split.
  - intros ([r' s'] & -> & [Hs Hin]%list_elem_of_filter). simpl in *. by subst.
  - intros Hin. exists (r, s). split; [done|]. by apply list_elem_of_filter.
Qed.

Lemma elem_of_join_room r s j p :
  p ∈ join_room r s j ↔ p ∈ j ∨ p = (r, s).
Proof.
  unfold join_room. case_decide as Hin.
  - naive_solver.
  - rewrite elem_of_app, list_elem_of_singleton. done.
Qed.

Lemma elem_of_leave_room r s j p :
  p ∈ leave_room r s j ↔ p ∈ j ∧ p ≠ (r, s).
Proof. unfold leave_room. rewrite list_elem_of_filter. naive_solver. Qed.

(** ** JOIN: eviction of earlier sockets of the same user *)

Section eviction.
Variables (roomId username : jsval) (self : string).

Lemma shrinks_refl st : shrinks roomId self st st.
Proof. unfold shrinks. naive_solver. Qed.

Lemma shrinks_trans st1 st2 st3 :
  shrinks roomId self st1 st2 → shrinks roomId self st2 st3 →
  shrinks roomId self st1 st3.
Proof.
  intros (Hc & Hu & Hm & Hs & Hj & Hk & Hx & Hself)
         (Hc' & Hu' & Hm' & Hs' & Hj' & Hk' & Hx' & Hself').
  unfold shrinks. split_and!; try congruence; auto.
  intros x. destruct (Hx' x) as [?|Heq]; [by left|].
  rewrite Heq. apply Hx.
Qed.

Lemma evict_shrinks st x :
  shrinks roomId self st (evict roomId username self st x).
Proof.
  unfold evict. repeat case_decide; try apply shrinks_refl.
  unfold shrinks. simpl. split_and!; try done.
  - intros p. rewrite elem_of_leave_room. tauto.
  - intros [r s] Hin Hp. rewrite elem_of_leave_room. split; [done|].
    intros [= -> ->]. simpl in Hp. naive_solver.
  - intros y. destruct (decide (x = y)) as [->|].
    + left. apply lookup_delete_eq.
    + right. by apply lookup_delete_ne.
  - apply lookup_delete_ne. naive_solver.
Qed.

Lemma foldl_evict_shrinks l st :
  shrinks roomId self st (foldl (evict roomId username self) st l).
Proof.
  revert st. induction l as [|x l IH]; intros st; simpl.
  - apply shrinks_refl.
  - eapply shrinks_trans; [apply evict_shrinks | apply IH].
Qed.

(** A socket of the room that is registered under the joining username,
    is connected and is not the joining socket leaves the room and loses
    its registry entry. *)
Lemma foldl_evict_removed l st e :
  e ∈ l →
  lookup_user st e = username →
  e ∈ sockets st →
  e ≠ self →
  let st' := foldl (evict roomId username self) st l in
  ((roomId, e) ∉ joined st') ∧ userSocketMap st' !! e = None.
Proof.
  revert st. induction l as [|x l IH]; intros st Hin Hu Hs Hne; simpl.
  { by apply elem_of_nil in Hin. }
  destruct (decide (x = e)) as [->|Hxe].
  - pose proof (foldl_evict_shrinks l (evict roomId username self st e))
      as (_ & _ & _ & _ & Hj & _ & Hx & _).
    assert (Hgone : ((roomId, e) ∉ joined (evict roomId username self st e))
                    ∧ userSocketMap (evict roomId username self st e) !! e
                      = None).
    { unfold evict. rewrite decide_True by done.
      rewrite decide_True by done. simpl. split.
      - rewrite elem_of_leave_room. naive_solver.
      - apply lookup_delete_eq. }
    destruct Hgone as [Hg1 Hg2]. split.
    + intros Hin'. apply Hg1, Hj, Hin'.
    + destruct (Hx e) as [?|Heq]; [done|]. by rewrite Heq.
  - apply elem_of_cons in Hin as [->|Hin]; [done|].
    pose proof (evict_shrinks st x) as (_ & _ & _ & Hs' & _ & _ & _ & _).
    apply IH; try done.
    + unfold lookup_user in *. unfold evict. repeat case_decide; try done.
      simpl. by rewrite lookup_delete_ne.
    + by rewrite Hs'.
Qed.
End eviction.

(** ** getAllConnectedClients lists registered sockets of the room only *)

Lemma elem_of_map_set k v m p :
  p ∈ map_set k v m → p = (k, v) ∨ p ∈ m.
Proof.
  induction m as [|[k' v'] m IH]; simpl.
  - rewrite list_elem_of_singleton. by left.
  - case_decide; rewrite !elem_of_cons; naive_solver.
Qed.

Lemma elem_of_clients st r s u :
  (s, u) ∈ getAllConnectedClients st r →
  s ∈ room_sockets st r ∧ lookup_user st s = u ∧ truthy u = true.
Proof.
  unfold getAllConnectedClients. rewrite list_elem_of_fmap.
  intros ([u' s'] & [= -> ->] & Hin). revert Hin.
  assert (Hgen : ∀ l acc,
    (∀ p, p ∈ acc → p.2 ∈ room_sockets st r ∧ lookup_user st p.2 = p.1
                    ∧ truthy p.1 = true) →
    (∀ x, x ∈ l → x ∈ room_sockets st r) →
    ∀ p, p ∈ foldl (add_client st) acc l →
         p.2 ∈ room_sockets st r ∧ lookup_user st p.2 = p.1
         ∧ truthy p.1 = true).
  { induction l as [|x l IH]; intros acc Hacc Hl p; simpl; [by apply Hacc|].
    apply IH.
    - intros q. unfold add_client. destruct (truthy _) eqn:Ht; [|by apply Hacc].
      intros [->|Hq]%elem_of_map_set; [|by apply Hacc]. simpl.
      split_and!; try done. apply Hl. by left.
    - intros y Hy. apply Hl. by right. }
  intros Hin. apply (Hgen (room_sockets st r) [] ) in Hin; try done.
  intros p Hp. by apply elem_of_nil in Hp.
Qed.

Lemma not_listed_without_entry st r s :
  userSocketMap st !! s = None → s ∉ (getAllConnectedClients st r).*1.
Proof.
  intros Hnone. rewrite list_elem_of_fmap. intros ([s' u] & -> & Hin).
  apply elem_of_clients in Hin as (_ & Hu & Ht). simpl in *.
  unfold lookup_user in Hu. rewrite Hnone in Hu. simpl in Hu. by subst.
Qed.

(** ** "disconnecting": the loop over the socket's rooms *)

Lemma remove_member_frame st r u :
  userSocketMap (remove_member st r u) = userSocketMap st
  ∧ sockets (remove_member st r u) = sockets st
  ∧ joined (remove_member st r u) = joined st.
Proof. unfold remove_member. destruct (_ !! _); [case_decide|]; done. Qed.

Lemma hasOtherConnections_ext st1 st2 sid r :
  userSocketMap st1 = userSocketMap st2 → joined st1 = joined st2 →
  hasOtherConnections st1 sid r = hasOtherConnections st2 sid r.
Proof.
  unfold hasOtherConnections, room_sockets, lookup_user. by intros -> ->.
Qed.

Lemma notice_ext st1 st2 sid r :
  userSocketMap st1 = userSocketMap st2 → joined st1 = joined st2 →
  notice st1 sid r = notice st2 sid r.
Proof.
  unfold notice, emit, recipients, room_sockets, lookup_user. by intros -> ->.
Qed.

Lemma disconnecting_fold st sid l acc :
  userSocketMap acc.1 = userSocketMap st → joined acc.1 = joined st →
  foldl (disconnecting_room sid) acc l
  = (foldl (λ s r, remove_member s r (lookup_user st sid)) acc.1
       (active_rooms st sid l),
     acc.2 ++ (notice st sid <$> active_rooms st sid l)).
Proof.
  revert acc. induction l as [|r l IH]; intros [s out] Hu Hj; simpl in *.
  { by rewrite app_nil_r. }
  unfold active_rooms. rewrite filter_cons. fold (active_rooms st sid l).
  unfold disconnecting_room at 2. simpl.
  rewrite (hasOtherConnections_ext s st) by done.
  destruct (decide (r ≠ JStr sid)) as [Hr|Hr].
  - destruct (hasOtherConnections st sid r) eqn:Hh.
    + rewrite decide_False by naive_solver. by apply IH.
    + rewrite decide_True by done.
      destruct (remove_member_frame s r (lookup_user s sid)) as (Hu' & _ & Hj').
      rewrite IH by (simpl; congruence). simpl.
      assert (lookup_user s sid = lookup_user st sid) as ->
        by (unfold lookup_user; by rewrite Hu).
      f_equal. rewrite <- app_assoc. simpl. do 2 f_equal.
      unfold notice, emit, recipients, room_sockets. by rewrite Hj.
  - rewrite decide_False by naive_solver. by apply IH.
Qed.

Lemma disconnecting_eq st sid :
  disconnecting st sid
  = (set_userSocketMap (delete sid)
       (foldl (λ s r, remove_member s r (lookup_user st sid)) st
          (active_rooms st sid (socket_rooms st sid))),
     notice st sid <$> active_rooms st sid (socket_rooms st sid)).
Proof.
  unfold disconnecting.
  by rewrite (disconnecting_fold st sid _ (st, [])).
Qed.

Lemma disconnect_eq st sid :
  let rm := foldl (λ s r, remove_member s r (lookup_user st sid)) st
              (active_rooms st sid (socket_rooms st sid)) in
  let st' := (disconnect st sid).1 in
  roomUsers st' = roomUsers rm
  ∧ roomCodeMap st' = roomCodeMap rm
  ∧ roomMessages st' = roomMessages rm
  ∧ userSocketMap st' = delete sid (userSocketMap rm)
  ∧ joined st' = filter (λ p, p.2 ≠ sid) (joined rm)
  ∧ sockets st' = filter (λ s, s ≠ sid) (sockets rm)
  ∧ (disconnect st sid).2
    = (notice st sid <$> active_rooms st sid (socket_rooms st sid)).
Proof. unfold disconnect. by rewrite disconnecting_eq. Qed.

Lemma remove_all_frame u l st :
  let st' := foldl (λ s r, remove_member s r u) st l in
  userSocketMap st' = userSocketMap st
  ∧ sockets st' = sockets st
  ∧ joined st' = joined st.
Proof.
  revert st. induction l as [|r l IH]; intros st; simpl; [done|].
  destruct (IH (remove_member st r u)) as (-> & -> & ->).
  apply remove_member_frame.
Qed.

(** *** What removing a member does to the three per-room maps *)

Lemma remove_member_other_key st r u k :
  prop_key r ≠ k →
  roomUsers (remove_member st r u) !! k = roomUsers st !! k
  ∧ roomCodeMap (remove_member st r u) !! k = roomCodeMap st !! k
  ∧ roomMessages (remove_member st r u) !! k = roomMessages st !! k.
Proof.
  intros Hk. unfold remove_member. destruct (_ !! prop_key r); [|done].
  case_decide; simpl; rewrite ?lookup_delete_ne, ?lookup_insert_ne; done.
Qed.

Lemma remove_member_together st r u k : together st (remove_member st r u) k.
Proof.
  unfold together. destruct (decide (prop_key r = k)) as [<-|Hk].
  - unfold remove_member. destruct (roomUsers st !! prop_key r) eqn:Hs.
    + case_decide; simpl.
      * right. by rewrite !lookup_delete_eq.
      * left. rewrite lookup_insert_eq. naive_solver.
    + left. naive_solver.
  - left. destruct (remove_member_other_key st r u k Hk) as (-> & -> & ->).
    done.
Qed.

Lemma together_refl st k : together st st k.
Proof. left. done. Qed.

Lemma together_trans st1 st2 st3 k :
  together st1 st2 k → together st2 st3 k → together st1 st3 k.
Proof.
  intros [(Hc & Hm & Hu)|(Hu & Hc & Hm)] [(Hc' & Hm' & Hu')|(Hu' & Hc' & Hm')].
  - left. rewrite Hc', Hm', Hu'. done.
  - by right.
  - right. rewrite Hc', Hm', Hu'. done.
  - by right.
Qed.

Lemma remove_all_together u l st k :
  together st (foldl (λ s r, remove_member s r u) st l) k.
Proof.
  revert st. induction l as [|r l IH]; intros st; simpl.
  - apply together_refl.
  - eapply together_trans; [apply remove_member_together | apply IH].
Qed.

Lemma remove_member_nonempty st r u :
  sets_nonempty st → sets_nonempty (remove_member st r u).
Proof.
  intros Hne k users. unfold remove_member.
  destruct (roomUsers st !! prop_key r) as [old|] eqn:Hs; [|apply Hne].
  case_decide as Hsz; simpl.
  - destruct (decide (prop_key r = k)) as [<-|Hk].
    + by rewrite lookup_delete_eq.
    + rewrite lookup_delete_ne by done. apply Hne.
  - destruct (decide (prop_key r = k)) as [<-|Hk].
    + rewrite lookup_insert_eq. intros [= <-] Hempty. apply Hsz.
      rewrite Hempty. apply size_empty.
    + rewrite lookup_insert_ne by done. apply Hne.
Qed.

Lemma remove_all_nonempty u l st :
  sets_nonempty st → sets_nonempty (foldl (λ s r, remove_member s r u) st l).
Proof.
  revert st. induction l as [|r l IH]; intros st Hne; simpl; [done|].
  by apply IH, remove_member_nonempty.
Qed.

Lemma remove_member_subseteq st r u r' :
  members (remove_member st r u) r' ⊆ members st r'.
Proof.
  unfold members.
  destruct (decide (prop_key r = prop_key r')) as [Hk|Hk].
  - unfold remove_member. rewrite <- Hk.
    destruct (roomUsers st !! prop_key r) eqn:Hs; [|by rewrite Hs].
    case_decide; simpl.
    + rewrite lookup_delete_eq. simpl. set_solver.
    + rewrite lookup_insert_eq. simpl. set_solver.
  - by destruct (remove_member_other_key st r u _ Hk) as (-> & _).
Qed.

Lemma remove_member_gone st r u r' :
  prop_key r = prop_key r' → u ∉ members (remove_member st r u) r'.
Proof.
  intros Hk. unfold members, remove_member. rewrite <- Hk.
  destruct (roomUsers st !! prop_key r) eqn:Hs; [|rewrite Hs; set_solver].
  case_decide; simpl.
  - rewrite lookup_delete_eq. set_solver.
  - rewrite lookup_insert_eq. simpl. set_solver.
Qed.

Lemma remove_all_subseteq u l st r' :
  members (foldl (λ s r, remove_member s r u) st l) r' ⊆ members st r'.
Proof.
  revert st. induction l as [|r l IH]; intros st; simpl; [done|].
  etrans; [apply IH | apply remove_member_subseteq].
Qed.

Lemma remove_all_gone u l st r :
  r ∈ l → u ∉ members (foldl (λ s r, remove_member s r u) st l) r.
Proof.
  revert st. induction l as [|r0 l IH]; intros st Hin; simpl.
  { by apply elem_of_nil in Hin. }
  destruct (decide (r0 = r)) as [->|Hne].
  - intros Hu. apply remove_all_subseteq in Hu.
    by apply (remove_member_gone st r u r) in Hu.
  - apply elem_of_cons in Hin as [->|Hin]; [done|]. by apply IH.
Qed.

Lemma remove_all_other_key u l st k :
  (∀ r, r ∈ l → prop_key r ≠ k) →
  let st' := foldl (λ s r, remove_member s r u) st l in
  roomUsers st' !! k = roomUsers st !! k
  ∧ roomCodeMap st' !! k = roomCodeMap st !! k
  ∧ roomMessages st' !! k = roomMessages st !! k.
Proof.
  revert st. induction l as [|r l IH]; intros st Hl; simpl; [done|].
  destruct (IH (remove_member st r u)) as (-> & -> & ->).
  { intros r' Hr'. apply Hl. by right. }
  apply remove_member_other_key, Hl. by left.
Qed.

(** ** Executions *)

Lemma run_snoc tr ev :
  run (tr ++ [ev])
  = ((step (run tr).1 ev).1, (run tr).2 ++ (step (run tr).1 ev).2).
Proof. unfold run, run_from. by rewrite foldl_app. Qed.

Lemma run_from_snoc st tr ev :
  run_from st (tr ++ [ev])
  = ((step (run_from st tr).1 ev).1,
     (run_from st tr).2 ++ (step (run_from st tr).1 ev).2).
Proof. unfold run_from. by rewrite foldl_app. Qed.

(** ** JOIN: the resulting state and the events sent *)

Lemma join_state st sid r u :
  let st1 := foldl (evict r u sid) st (room_sockets st r) in
  let st' := (join st sid r u).1 in
  userSocketMap st' = <[sid := u]> (userSocketMap st1)
  ∧ joined st' = join_room r sid (joined st1)
  ∧ sockets st' = sockets st
  ∧ roomCodeMap st' = roomCodeMap st
  ∧ roomUsers st' = <[prop_key r := {[u]} ∪ members st r]> (roomUsers st).
Proof.
  pose proof (foldl_evict_shrinks r u sid (room_sockets st r) st)
    as (Hc & Hu & Hm & Hs & _).
  unfold join, members. simpl.
  destruct (roomMessages _ !! _); simpl; rewrite Hu; done.
Qed.

Lemma join_out st sid r u :
  let st' := (join st sid r u).1 in
  (join st sid r u).2
  = Emission (ToRoom r) (room_sockets st' r)
      (Joined (getAllConnectedClients st' r) u sid)
    :: (if truthy (lookup_code st r)
        then [Emission (ToSocket sid) [sid] (CodeChange (lookup_code st r))]
        else []).
Proof.
  pose proof (foldl_evict_shrinks r u sid (room_sockets st r) st)
    as (Hc & _).
  unfold join, lookup_code. simpl. rewrite Hc.
  destruct (roomMessages _ !! _); done.
Qed.

Lemma join_evicted st sid r u e :
  e ∈ room_sockets st r → lookup_user st e = u → e ∈ sockets st → e ≠ sid →
  let st' := (join st sid r u).1 in
  (e ∉ room_sockets st' r) ∧ userSocketMap st' !! e = None.
Proof.
  intros Hin Hu Hs Hne st'.
  destruct (join_state st sid r u) as (Hmap & Hj & _).
  destruct (foldl_evict_removed r u sid (room_sockets st r) st e)
    as [Hgone Hnone]; try done.
  subst st'. rewrite elem_of_room_sockets, Hj, Hmap. split.
  - rewrite elem_of_join_room. intros [?|[= ?]]; done.
  - by rewrite lookup_insert_ne.
Qed.


(** C1 (as stated, refuted): after a CODE_CHANGE for a room nobody joined,
    the room has a code buffer although it has no membership set. *)
Lemma code_without_members :
  ¬ (is_Some (roomCodeMap (run edit_unjoined).1 !! "r9") →
     ∃ users, roomUsers (run edit_unjoined).1 !! "r9" = Some users
              ∧ users ≠ ∅).
Proof.
  intros H. destruct H as (users & Hu & _).
  - exists (JStr "x"). by vm_compute.
  - vm_compute in Hu. discriminate.
Qed.

Lemma step_nonempty st ev :
  sets_nonempty st → sets_nonempty (step st ev).1.
Proof.
  intros Hne.
  destruct ev; cbn -[join disconnect connect].
  { unfold connect. by case_decide. }
  all: case_decide; [|done]; try done.
  - destruct (join_state st sid roomId username) as (_ & _ & _ & _ & Hu).
    intros k users. rewrite Hu.
    destruct (decide (prop_key roomId = k)) as [<-|Hk].
    + rewrite lookup_insert_eq. intros [= <-]. set_solver.
    + rewrite lookup_insert_ne by done. apply Hne.
  - unfold sync_code. by case_decide.
  - destruct (disconnect_eq st sid) as (Hu & _).
    unfold sets_nonempty. rewrite Hu.
    by apply (remove_all_nonempty _ _ st).
Qed.

(** C1 (amended): in every reachable state a membership set that exists is
    non-empty, and whenever a disconnect makes a room's membership set
    disappear, the room's code buffer and message log are gone in the same
    step.  (Code and message state for a room without members can exist:
    CODE_CHANGE, SYNC_CODE and SEND_MESSAGE create it.) *)
Theorem room_state_removed_together :
  (∀ tr, sets_nonempty (run tr).1)
  ∧ (∀ st sid k,
       is_Some (roomUsers st !! k) →
       roomUsers (disconnect st sid).1 !! k = None →
       roomCodeMap (disconnect st sid).1 !! k = None
       ∧ roomMessages (disconnect st sid).1 !! k = None).
Proof.
  split.
  - induction tr as [|ev tr IH] using rev_ind.
    + intros k users. by vm_compute.
    + rewrite run_snoc. simpl. by apply step_nonempty.
  - intros st sid k [users Hsome].
    destruct (disconnect_eq st sid) as (-> & -> & -> & _). intros Hnone.
    destruct (remove_all_together (lookup_user st sid)
                (active_rooms st sid (socket_rooms st sid)) st k)
      as [(_ & _ & Hiff)|(_ & Hc & Hm)]; [|done].
    apply Hiff in Hnone. congruence.
Qed.

Lemma room_state_removed_together_witness :
  roomCodeMap (disconnect (run solo).1 "a").1 !! "r1" = None
  ∧ roomMessages (disconnect (run solo).1 "a").1 !! "r1" = None.
Proof.
  apply (proj2 room_state_removed_together (run solo).1 "a" "r1").
  - exists {[JStr "A"]}. by vm_compute.
  - by vm_compute.
Defined.

(** C3 (as stated, refuted): socket "a" is registered as "A" in room "r1";
    when socket "b" joins "r1" as "A", no event of the join reaches "a". *)
Lemma evicted_gets_no_notice :
  "a" ∈ room_sockets (run two_tabs).1 (JStr "r1")
  ∧ lookup_user (run two_tabs).1 "a" = JStr "A"
  ∧ ¬ Exists (λ em, "a" ∈ em_recipients em)
        (join (run two_tabs).1 "b" (JStr "r1") (JStr "A")).2.
Proof. split_and!; [by_eval | by vm_compute | by_eval]. Qed.

(** A socket that is out of a room stays out until it joins the room. *)
Lemma step_stays_out st ev e r :
  e ∉ room_sockets st r → stays_out e r ev →
  e ∉ room_sockets (step st ev).1 r.
Proof.
  rewrite !elem_of_room_sockets. intros Hout Hev.
  destruct ev; cbn -[join disconnect connect sync_code] in *.
  { unfold connect. case_decide; [done|]. simpl.
    rewrite elem_of_join_room. intros [?|[= _ ?]]; done. }
  all: case_decide; [|done]; try done.
  - destruct (join_state st sid roomId username) as (_ & -> & _).
    pose proof (foldl_evict_shrinks roomId username sid
                  (room_sockets st roomId) st)
      as (_ & _ & _ & _ & Hsub & _).
    rewrite elem_of_join_room. intros [Hin|[= -> ->]]; [|by apply Hev].
    by apply Hout, Hsub.
  - unfold sync_code. by case_decide.
  - destruct (disconnect_eq st sid) as (_ & _ & _ & _ & -> & _).
    destruct (remove_all_frame (lookup_user st sid)
                (active_rooms st sid (socket_rooms st sid)) st)
      as (_ & _ & ->).
    rewrite list_elem_of_filter. by intros [_ ?].
Qed.

Lemma run_from_stays_out st evs e r :
  e ∉ room_sockets st r → Forall (stays_out e r) evs →
  e ∉ room_sockets (run_from st evs).1 r.
Proof.
  intros Hout. induction evs as [|ev evs IH] using rev_ind; intros Hevs.
  - done.
  - apply Forall_app in Hevs as [Hevs Hev]. rewrite Forall_singleton in Hev.
    rewrite run_from_snoc. cbn [fst]. apply step_stays_out; [by apply IH|done].
Qed.

(** ** Sessions on plain rooms run without exception *)

Lemma join_plain_rooms st sid r u :
  plain r → plain_rooms st → plain_rooms (join st sid r u).1.
Proof.
  unfold plain_rooms. rewrite !Forall_forall. intros Hp Hst p.
  destruct (join_state st sid r u) as (_ & -> & _).
  pose proof (foldl_evict_shrinks r u sid (room_sockets st r) st)
    as (_ & _ & _ & _ & Hsub & _).
  rewrite elem_of_join_room. intros [Hin| ->]; [|by right].
  by apply Hst, Hsub.
Qed.

Lemma step_plain_rooms st ev :
  plain_event ev → plain_rooms st → plain_rooms (step st ev).1.
Proof.
  intros Hev Hst.
  destruct ev; cbn -[join disconnect connect sync_code] in *.
  { unfold connect. case_decide; [done|].
    unfold plain_rooms in *. rewrite Forall_forall in *. simpl. intros p.
    rewrite elem_of_join_room. intros [?| ->]; [by apply Hst|by left]. }
  all: case_decide; [|done]; try done.
  - by apply join_plain_rooms.
  - unfold sync_code. by case_decide.
  - unfold plain_rooms in *. rewrite Forall_forall in *.
    destruct (disconnect_eq st sid) as (_ & _ & _ & _ & -> & _).
    destruct (remove_all_frame (lookup_user st sid)
                (active_rooms st sid (socket_rooms st sid)) st)
      as (_ & _ & ->).
    intros p [_ ?]%list_elem_of_filter. by apply Hst.
Qed.

Lemma on_step_plain st ev :
  plain_event ev → plain_rooms st → returns_as (on_step st ev) (step st ev).
Proof.
  intros Hev Hst. unfold on_step, step.
  destruct ev; simpl in Hev; [done|..]; cbn [event_socket];
    (case_decide; [|done]).
  - by apply on_join_plain.
  - by apply on_code_change_plain.
  - by apply on_sync_code_plain.
  - by apply on_send_message_plain.
  - by apply on_fetch_messages_plain.
  - unfold returns_as, on_disconnect, disconnect.
    rewrite (on_disconnecting_plain st sid); [done|].
    intros r Hr Hne. apply elem_of_socket_rooms in Hr.
    unfold plain_rooms in Hst. rewrite Forall_forall in Hst.
    by destruct (Hst _ Hr).
Qed.

Lemma on_run_from_snoc st tr ev :
  on_run_from st (tr ++ [ev]) = then_step (on_run_from st tr) ev.
Proof. unfold on_run_from. by rewrite foldl_app. Qed.

Lemma on_run_from_plain st tr :
  Forall plain_event tr → plain_rooms st →
  returns_as (on_run_from st tr) (run_from st tr)
  ∧ plain_rooms (run_from st tr).1.
Proof.
  intros Htr Hst. induction tr as [|ev tr IH] using rev_ind; [done|].
  apply Forall_app in Htr as [Htr Hev]. rewrite Forall_singleton in Hev.
  destruct (IH Htr) as [Hret Hrooms].
  rewrite on_run_from_snoc, run_from_snoc. cbn [fst snd]. split.
  - unfold returns_as in *. rewrite Hret. cbn [then_step fst snd].
    rewrite (on_step_plain _ ev Hev Hrooms). by rewrite fmap_app.
  - by apply step_plain_rooms.
Qed.

Lemma plain_rooms_initial : plain_rooms initial.
Proof. by apply Forall_nil. Qed.

(** C3 (amended): a socket joins a room, whose property name is not
    inherited, in which another connected socket is registered under the
    same username (in a state where no socket is in a room with an
    inherited name).  The JOIN returns normally; that other socket is
    removed from the room and from the registry; it is absent from the
    member list of the JOINED event; it receives no event of the join at
    all (there is no forced-leave notice); and through any later events on
    rooms with such names, all of which are handled without exception, it
    stays out of the room and of the room's member list until it joins the
    room again. *)
Theorem join_evicts_silently (st : state) (sid : string)
    (roomId username : jsval) (e : string) :
  plain roomId →
  plain_rooms st →
  e ∈ room_sockets st roomId →
  lookup_user st e = username →
  e ∈ sockets st →
  e ≠ sid →
  let st' := (join st sid roomId username).1 in
  let out := (join st sid roomId username).2 in
  returns_as (on_join st sid roomId username) (join st sid roomId username)
  ∧ (e ∉ room_sockets st' roomId)
  ∧ userSocketMap st' !! e = None
  ∧ (∃ rest,
       out = Emission (ToRoom roomId) (room_sockets st' roomId)
               (Joined (getAllConnectedClients st' roomId) username sid)
             :: rest)
  ∧ (e ∉ (getAllConnectedClients st' roomId).*1)
  ∧ (∀ em, em ∈ out → e ∉ em_recipients em)
  ∧ (∀ later,
       Forall plain_event later →
       Forall (stays_out e roomId) later →
       returns_as (on_run_from st' later) (run_from st' later)
       ∧ (e ∉ room_sockets (run_from st' later).1 roomId)
       ∧ e ∉ (getAllConnectedClients (run_from st' later).1 roomId).*1).
Proof.
  intros Hp Hrooms Hin Hu Hs Hne st' out.
  destruct (join_evicted st sid roomId username e) as [Hgone Hnone]; try done.
  fold st' in Hgone, Hnone. subst out. rewrite join_out. fold st'.
  split_and!; try done.
  - by apply on_join_plain.
  - by eexists.
  - by apply not_listed_without_entry.
  - intros em [->|Hem]%elem_of_cons; [done|].
    destruct (truthy _); [|by apply elem_of_nil in Hem].
    apply list_elem_of_singleton in Hem as ->. simpl.
    by rewrite list_elem_of_singleton.
  - intros later Hplain Hlater.
    pose proof (run_from_stays_out st' later e roomId Hgone Hlater) as Hout.
    split_and!; [|done|].
    { apply on_run_from_plain; [done|]. by apply join_plain_rooms. }
    intros ([s u] & -> & Hl)%list_elem_of_fmap.
    by apply elem_of_clients in Hl as (? & _).
Qed.

Lemma join_evicts_silently_witness :
  "a" ∉ room_sockets
          (run_from (join (run two_tabs).1 "b" (JStr "r1") (JStr "A")).1
             [ ESendMessage "b" (JStr "r1") (JStr "hi") (JStr "A") 10 10;
               EJoin "a" (JStr "r2") (JStr "A") ]).1
          (JStr "r1").
Proof.
  destruct (join_evicts_silently (run two_tabs).1 "b" (JStr "r1") (JStr "A")
              "a") as (_ & _ & _ & _ & _ & _ & Hlater).
  - by_eval.
  - by_eval.
  - by_eval.
  - vm_compute. reflexivity.
  - by_eval.
  - by_eval.
  - apply Hlater; by_eval.
Defined.




(** ** Reachable states keep the adapter free of duplicates *)

Lemma join_room_NoDup r s j : NoDup j → NoDup (join_room r s j).
Proof.
  intros Hnd. unfold join_room. case_decide as Hin; [done|].
  apply NoDup_app. split_and!; [done| |apply NoDup_singleton].
  intros p Hp ->%list_elem_of_singleton. done.
Qed.

Lemma foldl_evict_NoDup r u self l st :
  NoDup (joined st) → NoDup (joined (foldl (evict r u self) st l)).
Proof.
  revert st. induction l as [|x l IH]; intros st Hnd; simpl; [done|].
  apply IH. unfold evict. repeat case_decide; try done.
  simpl. by apply NoDup_filter.
Qed.

Lemma step_NoDup st ev :
  NoDup (joined st) → NoDup (joined (step st ev).1).
Proof.
  intros Hnd. destruct ev; cbn -[join disconnect connect sync_code].
  { unfold connect. case_decide; [done|]. simpl. by apply join_room_NoDup. }
  all: case_decide; [|done]; try done.
  - destruct (join_state st sid roomId username) as (_ & -> & _).
    by apply join_room_NoDup, foldl_evict_NoDup.
  - unfold sync_code. by case_decide.
  - destruct (disconnect_eq st sid) as (_ & _ & _ & _ & -> & _).
    apply NoDup_filter.
    by destruct (remove_all_frame (lookup_user st sid)
                   (active_rooms st sid (socket_rooms st sid)) st)
      as (_ & _ & ->).
Qed.

Lemma run_NoDup tr : NoDup (joined (run tr).1).
Proof.
  induction tr as [|ev tr IH] using rev_ind.
  - apply NoDup_nil_2.
  - rewrite run_snoc. cbn [fst]. by apply step_NoDup.
Qed.

(** ** "disconnecting": the notices sent *)

Lemma socket_rooms_NoDup st sid : NoDup (joined st) → NoDup (socket_rooms st sid).
Proof.
  intros Hnd. unfold socket_rooms. apply NoDup_fmap_2_strong.
  - intros [r1 s1] [r2 s2] [Hs1 _]%list_elem_of_filter [Hs2 _]%list_elem_of_filter.
    simpl in *. congruence.
  - by apply NoDup_filter.
Qed.

Lemma elem_of_active_rooms st sid l r :
  r ∈ active_rooms st sid l
  ↔ r ∈ l ∧ r ≠ JStr sid ∧ hasOtherConnections st sid r = false.
Proof. unfold active_rooms. rewrite list_elem_of_filter. tauto. Qed.

Lemma filter_notice st sid r l :
  NoDup l →
  filter (λ em, em_target em = ToRoomExcept r sid) (notice st sid <$> l)
  = if decide (r ∈ l) then [notice st sid r] else [].
Proof.
  induction 1 as [|x l Hx Hnd IH]; [done|].
  rewrite fmap_cons, filter_cons. simpl. destruct (decide (x = r)) as [->|Hne].
  - rewrite decide_True by done. rewrite decide_True by (by left).
    rewrite IH. by rewrite decide_False.
  - rewrite decide_False by congruence. rewrite IH.
    destruct (decide (r ∈ l)) as [Hin|Hin].
    + rewrite decide_True by (by right). done.
    + rewrite decide_False; [done|]. intros [->|?]%elem_of_cons; done.
Qed.


(** C4 (as stated, refuted): socket "a" joined, as "A", the room named by
    its own id and is the only socket registered there; when it disconnects
    no DISCONNECTED event is sent and "A" stays in the room's membership. *)
Lemma private_room_disconnect_silent :
  registered (run private_joined).1 "a" (JStr "a") (JStr "A")
  ∧ hasOtherConnections (run private_joined).1 "a" (JStr "a") = false
  ∧ (disconnect (run private_joined).1 "a").2 = []
  ∧ JStr "A" ∈ members (disconnect (run private_joined).1 "a").1 (JStr "a").
Proof.
  split_and!; [split; [by_eval | by vm_compute] | by vm_compute
              | by vm_compute | by_eval].
Qed.

(** C4 (amended): a socket disconnects, in a reachable state, while it is in
    a room other than its private one (the room named by its own id, which
    the listener skips); its username is its registry entry.  If no other
    socket of the room carries that username, exactly one DISCONNECTED event
    is sent for the room, to the room's other sockets, with the socket id
    and the username, and the username is no longer a member afterwards.
    If another socket of the room carries the username, no DISCONNECTED
    event is sent for the room and what is stored for the room (members,
    code, messages) is unchanged, provided no other room of the socket is
    stored under the same property name. *)
Theorem disconnect_notice (tr : list event) (sid : string) (roomId : jsval) :
  let st := (run tr).1 in
  roomId ∈ socket_rooms st sid →
  roomId ≠ JStr sid →
  let username := lookup_user st sid in
  let st' := (disconnect st sid).1 in
  let sent :=
    filter (λ em, em_target em = ToRoomExcept roomId sid)
      (disconnect st sid).2 in
  (∀ em, em ∈ (disconnect st sid).2 →
         em_payload em = Disconnected sid username)
  ∧ (hasOtherConnections st sid roomId = false →
     sent = [Emission (ToRoomExcept roomId sid)
               (filter (λ s, s ≠ sid) (room_sockets st roomId))
               (Disconnected sid username)]
     ∧ username ∉ members st' roomId)
  ∧ (hasOtherConnections st sid roomId = true →
     sent = []
     ∧ ((∀ r, r ∈ socket_rooms st sid → r ≠ JStr sid →
              prop_key r = prop_key roomId → r = roomId) →
        roomUsers st' !! prop_key roomId = roomUsers st !! prop_key roomId
        ∧ roomCodeMap st' !! prop_key roomId
          = roomCodeMap st !! prop_key roomId
        ∧ roomMessages st' !! prop_key roomId
          = roomMessages st !! prop_key roomId)).
Proof.
  intros st Hin Hown username st' sent.
  pose proof (run_NoDup tr) as Hnd. fold st in Hnd.
  destruct (disconnect_eq st sid) as (Hu & Hc & Hm & _ & _ & _ & Hout).
  assert (Hndr : NoDup (active_rooms st sid (socket_rooms st sid))).
  { apply NoDup_filter. by apply socket_rooms_NoDup. }
  subst sent st'. rewrite Hout, filter_notice by done.
  split_and!.
  - intros em. rewrite list_elem_of_fmap. by intros (r & -> & _).
  - intros Hh.
    assert (Hact : roomId ∈ active_rooms st sid (socket_rooms st sid))
      by (by apply elem_of_active_rooms).
    rewrite decide_True by done. split; [done|].
    unfold members. rewrite Hu. by apply remove_all_gone.
  - intros Hh. rewrite decide_False.
    2:{ rewrite elem_of_active_rooms. intros (_ & _ & Hf). congruence. }
    split; [done|]. intros Huniq. rewrite Hu, Hc, Hm.
    apply remove_all_other_key.
    intros r (Hr & Hrown & Hrh)%elem_of_active_rooms Hk.
    apply Huniq in Hk; try done. congruence.
Qed.

Lemma disconnect_notice_witness :
  (filter (λ em, em_target em = ToRoomExcept (JStr "r1") "a")
     (disconnect (run pair).1 "a").2
   = [Emission (ToRoomExcept (JStr "r1") "a") ["b"]
        (Disconnected "a" (JStr "A"))]
   ∧ JStr "A" ∉ members (disconnect (run pair).1 "a").1 (JStr "r1"))
  ∧ (filter (λ em, em_target em = ToRoomExcept (JStr "r1") "a")
       (disconnect (run shared_name).1 "a").2 = []
     ∧ roomUsers (disconnect (run shared_name).1 "a").1 !! "r1"
       = roomUsers (run shared_name).1 !! "r1").
Proof.
  split.
  - assert (H : JStr "r1" ∈ socket_rooms (run pair).1 "a"
                ∧ JStr "r1" ≠ JStr "a").
    { split; by_eval. }
    destruct H as (H1 & H2).
    destruct (disconnect_notice pair "a" (JStr "r1") H1 H2)
      as (_ & Hlast & _).
    apply Hlast. vm_compute. reflexivity.
  - assert (H : JStr "r1" ∈ socket_rooms (run shared_name).1 "a"
                ∧ JStr "r1" ≠ JStr "a").
    { split; by_eval. }
    destruct H as (H1 & H2).
    destruct (disconnect_notice shared_name "a" (JStr "r1") H1 H2)
      as (_ & _ & Hother).
    destruct Hother as [Hnone Hsame]; [vm_compute; reflexivity|].
    split; [done|]. apply Hsame.
    assert (Hrooms : socket_rooms (run shared_name).1 "a"
                     = [JStr "a"; JStr "r1"])
      by (vm_compute; reflexivity).
    intros r Hr Hown _. rewrite Hrooms in Hr.
    apply elem_of_cons in Hr as [->|Hr]; [done|].
    by apply list_elem_of_singleton in Hr.
Defined.



(** ** One user on two connections: membership follows registration *)

Lemma hasOtherConnections_true st sid r :
  hasOtherConnections st sid r = true
  ↔ ∃ s, s ∈ room_sockets st r ∧ s ≠ sid
         ∧ lookup_user st s = lookup_user st sid.
Proof.
  unfold hasOtherConnections.
  induction (room_sockets st r) as [|x l IH]; simpl.
  - split; [done|]. intros (s & Hs & _). by apply elem_of_nil in Hs.
  - rewrite orb_true_iff, IH, bool_decide_eq_true. split.
    + intros [Hx|(s & Hs & Hrest)].
      * exists x. split; [by left|done].
      * exists s. split; [by right|done].
    + intros (s & [->|Hs]%elem_of_cons & Hrest); [by left|].
      right. by exists s.
Qed.

Section session.
Variables (c1 c2 : string) (roomId username : jsval).
Hypothesis room_not_c1 : roomId ≠ JStr c1.
Hypothesis room_not_c2 : roomId ≠ JStr c2.

Lemma session_inv_initial : session_inv c1 c2 roomId username initial.
Proof.
  unfold session_inv. split_and!.
  - intros p Hp. by apply elem_of_nil in Hp.
  - intros s Hs. by apply elem_of_nil in Hs.
  - split; [by vm_compute|]. intros (s & Hs). by apply elem_of_nil in Hs.
Qed.

Lemma session_inv_connect st c :
  c = c1 ∨ c = c2 →
  session_inv c1 c2 roomId username st →
  session_inv c1 c2 roomId username (connect st c).
Proof.
  intros Hc (Hpairs & Hname & Hmem). unfold connect.
  case_decide as Hconn; [done|].
  assert (Hroom : ∀ s, s ∈ room_sockets
                          (set_joined (join_room (JStr c) c)
                             (set_sockets (λ l, l ++ [c]) st)) roomId
                       ↔ s ∈ room_sockets st roomId).
  { intros s. rewrite !elem_of_room_sockets. simpl.
    rewrite elem_of_join_room. split; [|by left].
    intros [?|[= Hr _]]; [done|]. destruct Hc; congruence. }
  unfold session_inv. split_and!.
  - intros p. simpl. rewrite elem_of_join_room, elem_of_app.
    intros [Hp| ->].
    + destruct (Hpairs p Hp) as (? & ? & ?). auto.
    + simpl. split_and!; [by right|done|].
      right. by apply list_elem_of_singleton.
  - intros s Hs%Hroom. by apply Hname.
  - setoid_rewrite Hroom. exact Hmem.
Qed.

Lemma session_inv_join st c :
  c = c1 ∨ c = c2 →
  c ∈ sockets st →
  session_inv c1 c2 roomId username st →
  session_inv c1 c2 roomId username (join st c roomId username).1.
Proof.
  intros Hc Hconn (Hpairs & Hname & Hmem).
  destruct (join_state st c roomId username) as (Hmap & Hj & Hs & _ & Hu).
  pose proof (foldl_evict_shrinks roomId username c
                (room_sockets st roomId) st)
    as (_ & _ & _ & _ & Hsub & _).
  assert (Hself : c ∈ room_sockets (join st c roomId username).1 roomId).
  { rewrite elem_of_room_sockets, Hj, elem_of_join_room. by right. }
  unfold session_inv. split_and!.
  - intros p. rewrite Hj, Hs, elem_of_join_room. intros [Hp| ->].
    + by apply Hpairs, Hsub.
    + simpl. split_and!; [by left|done|done].
  - intros s. rewrite elem_of_room_sockets, Hj, elem_of_join_room.
    unfold lookup_user. rewrite Hmap.
    destruct (decide (s = c)) as [->|Hne]; [by rewrite lookup_insert_eq|].
    intros [Hin|[= ?]]; [|done]. exfalso.
    assert (Hold : s ∈ room_sockets st roomId)
      by (by apply elem_of_room_sockets, Hsub).
    destruct (Hpairs (roomId, s)) as (_ & _ & Hsock);
      [by apply elem_of_room_sockets|].
    destruct (foldl_evict_removed roomId username c
                (room_sockets st roomId) st s) as [Hgone _]; auto.
  - split; [by exists c|]. intros _. unfold members. rewrite Hu.
    rewrite lookup_insert_eq. simpl. set_solver.
Qed.

Lemma session_inv_disconnect st c :
  session_inv c1 c2 roomId username st →
  session_inv c1 c2 roomId username (disconnect st c).1.
Proof.
  intros (Hpairs & Hname & Hmem).
  destruct (disconnect_eq st c) as (Hu & _ & _ & Hmap & Hj & Hs & _).
  destruct (remove_all_frame (lookup_user st c)
              (active_rooms st c (socket_rooms st c)) st)
    as (Hmap' & Hs' & Hj').
  rewrite Hmap' in Hmap. rewrite Hj' in Hj. rewrite Hs' in Hs.
  assert (Hroom : ∀ s, s ∈ room_sockets (disconnect st c).1 roomId
                       ↔ s ∈ room_sockets st roomId ∧ s ≠ c).
  { intros s. rewrite !elem_of_room_sockets, Hj, list_elem_of_filter.
    simpl. tauto. }
  assert (Hactive : ∀ r, r ∈ active_rooms st c (socket_rooms st c) →
                         r = roomId).
  { intros r (Hr & Hown & _)%elem_of_active_rooms.
    apply elem_of_socket_rooms in Hr.
    destruct (Hpairs _ Hr) as ([?|?] & _); simpl in *; done. }
  unfold session_inv. split_and!.
  - intros p. rewrite Hj, Hs, !list_elem_of_filter.
    intros [Hne Hp]. destruct (Hpairs p Hp) as (? & ? & ?). auto.
  - intros s [Hin Hne]%Hroom. unfold lookup_user. rewrite Hmap.
    rewrite lookup_delete_ne by done. by apply Hname.
  - setoid_rewrite Hroom. unfold members. rewrite Hu.
    destruct (decide (roomId ∈ active_rooms st c (socket_rooms st c)))
      as [Hact|Hact].
    + pose proof Hact as (Hr & _ & Hother)%elem_of_active_rooms.
      apply elem_of_socket_rooms, elem_of_room_sockets in Hr.
      pose proof (remove_all_gone (lookup_user st c) _ st roomId Hact)
        as Hgone.
      unfold members in Hgone. rewrite (Hname c Hr) in Hgone |- *.
      split; [done|]. intros (s & Hin & Hne). exfalso.
      assert (hasOtherConnections st c roomId = true); [|congruence].
      apply hasOtherConnections_true. exists s.
      rewrite (Hname s Hin), (Hname c Hr). done.
    + destruct (remove_all_other_key (lookup_user st c)
                  (active_rooms st c (socket_rooms st c)) st
                  (prop_key roomId)) as (-> & _).
      { intros r Hr. by rewrite (Hactive r Hr) in Hr. }
      fold (members st roomId). rewrite Hmem. split.
      * intros (s & Hin). destruct (decide (s = c)) as [->|Hne];
          [|by exists s].
        destruct (hasOtherConnections st c roomId) eqn:Hother.
        -- apply hasOtherConnections_true in Hother
             as (s' & Hin' & Hne' & _). by exists s'.
        -- exfalso. apply Hact, elem_of_active_rooms. split_and!; [|  |done].
           ++ by apply elem_of_socket_rooms, elem_of_room_sockets.
           ++ destruct (Hpairs (roomId, c)) as (_ & [Hc|Hc] & _);
                [by apply elem_of_room_sockets|simpl in Hc; congruence..].
      * intros (s & Hin & _). by exists s.
Qed.

Lemma session_inv_step st ev :
  session_event c1 c2 roomId username ev →
  session_inv c1 c2 roomId username st →
  session_inv c1 c2 roomId username (step st ev).1.
Proof.
  intros Hev Hinv.
  destruct Hev as [->|[->|[->|[->|[->| ->]]]]];
    cbn -[join disconnect connect].
  - apply session_inv_connect; auto.
  - apply session_inv_connect; auto.
  - case_decide; [|done]. apply session_inv_join; auto.
  - case_decide; [|done]. apply session_inv_join; auto.
  - case_decide; [|done]. by apply session_inv_disconnect.
  - case_decide; [|done]. by apply session_inv_disconnect.
Qed.

Lemma session_inv_run tr :
  Forall (session_event c1 c2 roomId username) tr →
  session_inv c1 c2 roomId username (run tr).1.
Proof.
  induction tr as [|ev tr IH] using rev_ind; intros Htr.
  - apply session_inv_initial.
  - apply Forall_app in Htr as [Htr Hev]. rewrite run_snoc. cbn [fst].
    rewrite Forall_singleton in Hev.
    apply session_inv_step; [exact Hev|exact (IH Htr)].
Qed.
End session.

(** C6 (amended): in a session where two connections connect, join one room
    under one username and disconnect, in any order and any number of
    times, where the room's property name is not inherited and the room is
    not the private room of either connection (the room named by its socket
    id): the room's membership set holds the username exactly when one of
    the two connections is registered to it in the room; every event of the
    session is handled without exception, and in every state of the
    session a JOIN of the room and a disconnect return normally. *)
Theorem membership_follows_registration (c1 c2 : string)
    (roomId username : jsval) (tr : list event) :
  plain roomId →
  roomId ≠ JStr c1 →
  roomId ≠ JStr c2 →
  Forall (session_event c1 c2 roomId username) tr →
  (username ∈ members (run tr).1 roomId
   ↔ registered (run tr).1 c1 roomId username
     ∨ registered (run tr).1 c2 roomId username)
  ∧ returns_as (on_run tr) (run tr)
  ∧ (∀ c, returns_as (on_join (run tr).1 c roomId username)
            (join (run tr).1 c roomId username))
  ∧ (∀ c, returns_as (on_disconnecting (run tr).1 c)
            (disconnecting (run tr).1 c)).
Proof.
  intros Hp H1 H2 Htr.
  destruct (session_inv_run c1 c2 roomId username H1 H2 tr Htr)
    as (Hpairs & Hname & Hmem).
  split_and!.
  - rewrite Hmem. unfold registered. split.
    + intros (s & Hin).
      destruct (Hpairs (roomId, s)) as (_ & [Hs|Hs] & _);
        [by apply elem_of_room_sockets| |]; simpl in Hs; subst s.
      * left. split; [done|by apply Hname].
      * right. split; [done|by apply Hname].
    + intros [[Hin _]|[Hin _]]; eauto.
  - apply on_run_from_plain; [|apply plain_rooms_initial].
    eapply Forall_impl; [exact Htr|].
    intros ev [->|[->|[->|[->|[->| ->]]]]]; done.
  - intros c. by apply on_join_plain.
  - intros c. apply on_disconnecting_plain. intros r Hr Hown.
    apply elem_of_socket_rooms in Hr.
    destruct (Hpairs _ Hr) as ([Hroom|Hroom] & _); simpl in Hroom;
      by subst.
Qed.

Lemma membership_follows_registration_witness :
  JStr "A" ∈ members (run reconnect).1 (JStr "r1")
  ↔ registered (run reconnect).1 "a" (JStr "r1") (JStr "A")
    ∨ registered (run reconnect).1 "b" (JStr "r1") (JStr "A").
Proof.
  destruct (membership_follows_registration "a" "b" (JStr "r1") (JStr "A")
              reconnect) as [Hiff _].
  - by_eval.
  - by_eval.
  - by_eval.
  - by_eval.
  - exact Hiff.
Defined.

(** C6 (as stated, refuted): socket "a" joins, as "A", the room named by its
    own id and disconnects; "A" is still in the room's membership set
    although neither connection is registered in the room. *)
Lemma private_room_keeps_member :
  Forall (session_event "a" "b" (JStr "a") (JStr "A")) private_join
  ∧ ¬ (JStr "A" ∈ members (run private_join).1 (JStr "a")
       ↔ registered (run private_join).1 "a" (JStr "a") (JStr "A")
         ∨ registered (run private_join).1 "b" (JStr "a") (JStr "A")).
Proof.
  split; [by_eval|]. intros [Hreg _].
  assert (Hmem : JStr "A" ∈ members (run private_join).1 (JStr "a"))
    by by_eval.
  assert (Hnone : room_sockets (run private_join).1 (JStr "a") = [])
    by (by vm_compute).
  destruct (Hreg Hmem) as [[Hin _]|[Hin _]];
    rewrite Hnone in Hin; by apply elem_of_nil in Hin.
Qed.

(** * Further properties of the server and of the chat panel *)

(** ** getAllConnectedClients: one entry per username *)

Lemma map_set_keys k v m :
  (map_set k v m).*1 = if decide (k ∈ m.*1) then m.*1 else m.*1 ++ [k].
Proof.
  induction m as [|[k' v'] m IH]; [done|].
  cbn [map_set]. rewrite fmap_cons. cbn [fst].
  destruct (decide (k' = k)) as [->|Hne].
  - by rewrite decide_True by (by left).
  - rewrite fmap_cons, IH. cbn [fst].
    destruct (decide (k ∈ m.*1)) as [Hin|Hin].
    + by rewrite decide_True by (by right).
    + rewrite decide_False; [done|].
      intros [?|?]%elem_of_cons; congruence.
Qed.

Lemma map_set_self k v m : (k, v) ∈ map_set k v m.
Proof.
  induction m as [|[k' v'] m IH]; simpl; [by left|].
  case_decide; [by left|by right].
Qed.

Lemma map_set_other k v m p : p.1 ≠ k → p ∈ m → p ∈ map_set k v m.
Proof.
  intros Hne. induction m as [|[k' v'] m IH]; simpl;
    [by intros ?%elem_of_nil|].
  intros [->|Hin]%elem_of_cons.
  - simpl in Hne. rewrite decide_False by done. by left.
  - case_decide; right; [done|by apply IH].
Qed.

Lemma add_client_keys_NoDup st acc s :
  NoDup acc.*1 → NoDup (add_client st acc s).*1.
Proof.
  intros Hnd. unfold add_client. destruct (truthy _); [|done].
  rewrite map_set_keys. case_decide as Hin; [done|].
  apply NoDup_app. split_and!; [done| |apply NoDup_singleton].
  intros x Hx ->%list_elem_of_singleton. done.
Qed.

Lemma add_client_keys_mono st acc s k :
  k ∈ acc.*1 → k ∈ (add_client st acc s).*1.
Proof.
  intros Hk. unfold add_client. destruct (truthy _); [|done].
  rewrite map_set_keys. case_decide; [done|]. apply elem_of_app. by left.
Qed.

Lemma foldl_add_client_keys_NoDup st l acc :
  NoDup acc.*1 → NoDup (foldl (add_client st) acc l).*1.
Proof.
  revert acc. induction l as [|s l IH]; intros acc Hnd; simpl; [done|].
  by apply IH, add_client_keys_NoDup.
Qed.

Lemma foldl_add_client_keys_mono st l acc k :
  k ∈ acc.*1 → k ∈ (foldl (add_client st) acc l).*1.
Proof.
  revert acc. induction l as [|s l IH]; intros acc Hk; simpl; [done|].
  by apply IH, add_client_keys_mono.
Qed.

Lemma foldl_add_client_complete st l acc s :
  s ∈ l → truthy (lookup_user st s) = true →
  lookup_user st s ∈ (foldl (add_client st) acc l).*1.
Proof.
  revert acc. induction l as [|x l IH]; intros acc Hin Ht; simpl.
  { by apply elem_of_nil in Hin. }
  apply elem_of_cons in Hin as [->|Hin]; [|by apply IH].
  apply foldl_add_client_keys_mono. unfold add_client. rewrite Ht.
  apply list_elem_of_fmap. exists (lookup_user st x, x).
  split; [done|apply map_set_self].
Qed.

(** An entry survives the sockets that carry another username, or that are
    the entry's own socket. *)
Lemma foldl_add_client_keeps st l acc s :
  truthy (lookup_user st s) = true →
  (lookup_user st s, s) ∈ acc →
  (∀ x, x ∈ l → lookup_user st x = lookup_user st s → x = s) →
  (lookup_user st s, s) ∈ foldl (add_client st) acc l.
Proof.
  intros Ht. revert acc. induction l as [|x l IH]; intros acc Hin Hl; simpl.
  { done. }
  apply IH; [|intros y Hy; apply Hl; by right].
  unfold add_client. destruct (truthy (lookup_user st x)) eqn:Hx; [|done].
  destruct (decide (lookup_user st x = lookup_user st s)) as [Heq|Hne].
  - rewrite (Hl x) by (done || by left). apply map_set_self.
  - by apply map_set_other.
Qed.

Lemma clients_usernames st r :
  (getAllConnectedClients st r).*2
  = (foldl (add_client st) [] (room_sockets st r)).*1.
Proof.
  unfold getAllConnectedClients. rewrite <- list_fmap_compose.
  by apply list_fmap_ext.
Qed.

(** X1. [getAllConnectedClients] lists every non-empty username carried by a
    socket of the room exactly once, each with a socket of the room that is
    registered under it; sockets without username, or with the empty
    username, are not listed. *)
Theorem clients_exact (st : state) (roomId : jsval) :
  NoDup (getAllConnectedClients st roomId).*2
  ∧ (∀ s u, (s, u) ∈ getAllConnectedClients st roomId →
            s ∈ room_sockets st roomId
            ∧ lookup_user st s = u
            ∧ truthy u = true)
  ∧ (∀ u, u ∈ (getAllConnectedClients st roomId).*2
          ↔ truthy u = true
            ∧ ∃ s, s ∈ room_sockets st roomId ∧ lookup_user st s = u).
Proof.
  split_and!.
  - rewrite clients_usernames. apply foldl_add_client_keys_NoDup.
    apply NoDup_nil_2.
  - intros s u. apply elem_of_clients.
  - intros u. split.
    + intros ([s u'] & -> & Hin)%list_elem_of_fmap.
      apply elem_of_clients in Hin as (Hs & Hu & Ht). eauto.
    + intros (Ht & s & Hs & <-). rewrite clients_usernames.
      by apply foldl_add_client_complete.
Qed.

Lemma clients_last st r before after s :
  room_sockets st r = before ++ s :: after →
  truthy (lookup_user st s) = true →
  (∀ x, x ∈ after → lookup_user st x = lookup_user st s → x = s) →
  (s, lookup_user st s) ∈ getAllConnectedClients st r.
Proof.
  intros Hroom Ht Hafter. unfold getAllConnectedClients.
  apply list_elem_of_fmap. exists (lookup_user st s, s). split; [done|].
  rewrite Hroom, foldl_app. simpl.
  apply foldl_add_client_keeps; [done| |done].
  unfold add_client at 1. rewrite Ht. apply map_set_self.
Qed.

(** X2. When several sockets of a room carry the same username, the entry
    of [getAllConnectedClients] for that username names the last of them
    in the order in which the sockets joined the room, and no other. *)
Theorem clients_last_wins (st : state) (roomId : jsval)
    (before after : list string) (s : string) :
  room_sockets st roomId = before ++ s :: after →
  truthy (lookup_user st s) = true →
  (∀ x, x ∈ after → lookup_user st x = lookup_user st s → x = s) →
  ∀ s', (s', lookup_user st s) ∈ getAllConnectedClients st roomId ↔ s' = s.
Proof.
  intros Hroom Ht Hafter s'.
  pose proof (clients_last st roomId before after s Hroom Ht Hafter) as Hs.
  split; [|by intros ->].
  intros Hs'.
  assert (Hnd : NoDup (getAllConnectedClients st roomId).*2).
  { rewrite clients_usernames. apply foldl_add_client_keys_NoDup.
    apply NoDup_nil_2. }
  apply list_elem_of_lookup in Hs as [i Hi].
  apply list_elem_of_lookup in Hs' as [j Hj].
  assert (i = j).
  { eapply NoDup_lookup; [exact Hnd| |].
    - rewrite list_lookup_fmap, Hi. done.
    - rewrite list_lookup_fmap, Hj. done. }
  subst j. congruence.
Qed.

Lemma clients_last_wins_witness :
  ("b", JStr "A") ∈ getAllConnectedClients (run shared_name).1 (JStr "r1").
Proof.
  assert (Hname : lookup_user (run shared_name).1 "b" = JStr "A")
    by (vm_compute; reflexivity).
  rewrite <- Hname.
  apply (clients_last_wins (run shared_name).1 (JStr "r1") ["a"] [] "b").
  - vm_compute. reflexivity.
  - vm_compute. reflexivity.
  - by intros x ?%elem_of_nil.
  - reflexivity.
Defined.

(** ** JOIN: what it establishes, what it leaves alone, and repetition *)

Lemma foldl_evict_entry_kept r u self l st x :
  (r, x) ∈ joined (foldl (evict r u self) st l) →
  userSocketMap (foldl (evict r u self) st l) !! x = userSocketMap st !! x.
Proof.
  revert st. induction l as [|y l IH]; intros st Hin; simpl in *; [done|].
  rewrite IH by done.
  pose proof (foldl_evict_shrinks r u self l (evict r u self st y))
    as (_ & _ & _ & _ & Hsub & _).
  apply Hsub in Hin. revert Hin. unfold evict.
  repeat case_decide; try done. simpl.
  rewrite elem_of_leave_room. intros [_ Hne].
  rewrite lookup_delete_ne; [done|]. congruence.
Qed.

(** A connected socket that is still in the room after the eviction loop,
    other than the joining one, does not carry the joining username. *)
Lemma evict_survivors st r u self x :
  (r, x) ∈ joined (foldl (evict r u self) st (room_sockets st r)) →
  x ∈ sockets st → x ≠ self →
  lookup_user (foldl (evict r u self) st (room_sockets st r)) x ≠ u.
Proof.
  intros Hin Hs Hne Hu.
  pose proof (foldl_evict_entry_kept r u self _ st x Hin) as Hkept.
  pose proof (foldl_evict_shrinks r u self (room_sockets st r) st)
    as (_ & _ & _ & _ & Hsub & _).
  destruct (foldl_evict_removed r u self (room_sockets st r) st x)
    as [Hgone _]; try done.
  - by apply elem_of_room_sockets, Hsub.
  - unfold lookup_user in *. by rewrite <- Hkept.
Qed.

Lemma foldl_evict_id r u self l st :
  (∀ x, x ∈ l →
        ¬ (lookup_user st x = u ∧ x ∈ sockets st ∧ x ≠ self)) →
  foldl (evict r u self) st l = st.
Proof.
  induction l as [|y l IH]; intros Hl; simpl; [done|].
  assert (Hy : evict r u self st y = st).
  { unfold evict. repeat case_decide; try done.
    exfalso. apply (Hl y); [by left|naive_solver]. }
  rewrite Hy. apply IH. intros x Hx. apply Hl. by right.
Qed.

Lemma state_eq (a b : state) :
  userSocketMap a = userSocketMap b → roomCodeMap a = roomCodeMap b →
  roomUsers a = roomUsers b → roomMessages a = roomMessages b →
  sockets a = sockets b → joined a = joined b → a = b.
Proof. destruct a, b; simpl; by intros -> -> -> -> -> ->. Qed.

Lemma join_log st sid r u :
  roomMessages (join st sid r u).1 !! prop_key r
  = Some (lookup_messages st r)
  ∧ ∀ k, k ≠ prop_key r →
         roomMessages (join st sid r u).1 !! k = roomMessages st !! k.
Proof.
  pose proof (foldl_evict_shrinks r u sid (room_sockets st r) st)
    as (_ & _ & Hm & _).
  unfold join, lookup_messages. simpl. rewrite Hm.
  destruct (roomMessages st !! prop_key r) eqn:Hlog; simpl.
  - by rewrite Hm.
  - rewrite Hm, lookup_insert_eq. split; [done|].
    intros k Hk. by rewrite lookup_insert_ne.
Qed.

(** The joining socket is the only connected socket of the room that
    carries the joining username once JOIN is done. *)
Lemma join_unique st sid r u x :
  x ∈ room_sockets (join st sid r u).1 r →
  x ∈ sockets st →
  lookup_user (join st sid r u).1 x = u →
  x = sid.
Proof.
  intros Hin Hs Hu. destruct (decide (x = sid)) as [|Hne]; [done|].
  exfalso.
  destruct (join_state st sid r u) as (Hmap & Hj & _).
  apply elem_of_room_sockets in Hin. rewrite Hj in Hin.
  apply elem_of_join_room in Hin as [Hin|[= ?]]; [|done].
  apply (evict_survivors st r u sid x); try done.
  unfold lookup_user in *. rewrite Hmap in Hu.
  by rewrite lookup_insert_ne in Hu.
Qed.

(** X3. What JOIN does to the shared state, for a room whose property name
    is not inherited: the handler returns normally; the joining socket ends
    up in the room, registered under the username; the username is a
    member; the room has a chat log, the one it had or else an empty one.
    The code buffers, the logs of other rooms, the table of connected
    sockets, the membership sets stored under other property names and the
    sockets of every other room are left as they were. *)
Theorem join_effect (st : state) (sid : string) (roomId username : jsval) :
  plain roomId →
  let st' := (join st sid roomId username).1 in
  returns_as (on_join st sid roomId username) (join st sid roomId username)
  ∧ registered st' sid roomId username
  ∧ username ∈ members st' roomId
  ∧ lookup_messages st' roomId = lookup_messages st roomId
  ∧ is_Some (roomMessages st' !! prop_key roomId)
  ∧ roomCodeMap st' = roomCodeMap st
  ∧ sockets st' = sockets st
  ∧ (∀ k, k ≠ prop_key roomId →
          roomMessages st' !! k = roomMessages st !! k
          ∧ roomUsers st' !! k = roomUsers st !! k)
  ∧ (∀ r s, r ≠ roomId →
            s ∈ room_sockets st' r ↔ s ∈ room_sockets st r).
Proof.
  intros Hp st'.
  destruct (join_state st sid roomId username) as (Hmap & Hj & Hs & Hc & Hu).
  destruct (join_log st sid roomId username) as (Hlog & Hlogs).
  pose proof (foldl_evict_shrinks roomId username sid
                (room_sockets st roomId) st)
    as (_ & _ & _ & _ & Hsub & Hkeep & _).
  fold st' in Hmap, Hj, Hs, Hc, Hu, Hlog, Hlogs.
  split_and!; try done.
  - by apply on_join_plain.
  - split.
    + rewrite elem_of_room_sockets, Hj, elem_of_join_room. by right.
    + unfold lookup_user. by rewrite Hmap, lookup_insert_eq.
  - unfold members. rewrite Hu, lookup_insert_eq. simpl. set_solver.
  - unfold lookup_messages at 1. by rewrite Hlog.
  - intros k Hk. split; [by apply Hlogs|].
    rewrite Hu. by rewrite lookup_insert_ne.
  - intros r s Hr. rewrite !elem_of_room_sockets, Hj, elem_of_join_room.
    split.
    + intros [Hin|[= ? ?]]; [by apply Hsub|done].
    + intros Hin. left. apply Hkeep; [done|]. by left.
Qed.

Lemma join_effect_witness :
  registered (join (run two_tabs).1 "b" (JStr "r1") (JStr "B")).1 "b"
    (JStr "r1") (JStr "B")
  ∧ JStr "B" ∈ members (join (run two_tabs).1 "b" (JStr "r1") (JStr "B")).1
                 (JStr "r1").
Proof.
  destruct (join_effect (run two_tabs).1 "b" (JStr "r1") (JStr "B"))
    as (_ & Hreg & Hmem & _).
  - by_eval.
  - by split.
Defined.

(** X4. When the room's property name is not inherited, every socket of the
    room is connected (as in every reachable state) and the username is not
    empty, the JOIN returns normally, its JOINED event reaches the joining
    socket, and the member list of that event has an entry for the
    username, which names the joining socket. *)
Theorem join_lists_joiner (st : state) (sid : string)
    (roomId username : jsval) :
  plain roomId →
  (∀ x, x ∈ room_sockets st roomId → x ∈ sockets st) →
  sid ∈ sockets st →
  truthy username = true →
  let st' := (join st sid roomId username).1 in
  returns_as (on_join st sid roomId username) (join st sid roomId username)
  ∧ (∃ rcpts rest,
     (join st sid roomId username).2
     = Emission (ToRoom roomId) rcpts
         (Joined (getAllConnectedClients st' roomId) username sid) :: rest
     ∧ sid ∈ rcpts)
  ∧ ∀ s, (s, username) ∈ getAllConnectedClients st' roomId ↔ s = sid.
Proof.
  intros Hp Hconn Hsid Ht st'.
  destruct (join_state st sid roomId username) as (Hmap & Hj & Hs & _).
  fold st' in Hmap, Hj, Hs.
  assert (Hin : sid ∈ room_sockets st' roomId).
  { rewrite elem_of_room_sockets, Hj, elem_of_join_room. by right. }
  assert (Hname : lookup_user st' sid = username).
  { unfold lookup_user. by rewrite Hmap, lookup_insert_eq. }
  assert (Hall : ∀ x, x ∈ room_sockets st' roomId → x ∈ sockets st).
  { intros x. rewrite elem_of_room_sockets, Hj, elem_of_join_room.
    intros [Hx|[= ->]]; [|done].
    pose proof (foldl_evict_shrinks roomId username sid
                  (room_sockets st roomId) st)
      as (_ & _ & _ & _ & Hsub & _).
    by apply Hconn, elem_of_room_sockets, Hsub. }
  split_and!.
  - by apply on_join_plain.
  - rewrite join_out. fold st'. by eexists _, _.
  - intros s. split.
    + intros Hs'. apply elem_of_clients in Hs' as (Hroom & Hu & _).
      apply (join_unique st sid roomId username); auto.
    + intros ->.
      apply list_elem_of_split in Hin as (before & after & Hsplit).
      rewrite <- Hname.
      apply (clients_last st' roomId before after sid Hsplit).
      * by rewrite Hname.
      * intros x Hx Hux. apply (join_unique st sid roomId username).
        -- fold st'. rewrite Hsplit, elem_of_app. right. by right.
        -- apply Hall. rewrite Hsplit, elem_of_app. right. by right.
        -- fold st'. by rewrite Hux.
Qed.

Lemma join_lists_joiner_witness :
  ("b", JStr "A")
  ∈ getAllConnectedClients
      (join (run two_tabs).1 "b" (JStr "r1") (JStr "A")).1 (JStr "r1").
Proof.
  assert (Hroom : room_sockets (run two_tabs).1 (JStr "r1") = ["a"])
    by (vm_compute; reflexivity).
  apply (join_lists_joiner (run two_tabs).1 "b" (JStr "r1") (JStr "A")).
  - by_eval.
  - intros x. rewrite Hroom. intros ->%list_elem_of_singleton. by_eval.
  - by_eval.
  - vm_compute. reflexivity.
  - reflexivity.
Defined.

(** X5. JOIN is idempotent on the state: a socket that repeats its JOIN for
    the same room under the same username leaves the state as the first
    JOIN left it. *)
Theorem join_idempotent (st : state) (sid : string)
    (roomId username : jsval) :
  let st' := (join st sid roomId username).1 in
  (join st' sid roomId username).1 = st'.
Proof.
  intros st'.
  destruct (join_state st sid roomId username) as (Hmap & Hj & Hs & Hc & Hu).
  destruct (join_log st sid roomId username) as (Hlog & _).
  fold st' in Hmap, Hj, Hs, Hc, Hu, Hlog.
  assert (Hid : foldl (evict roomId username sid) st'
                  (room_sockets st' roomId) = st').
  { apply foldl_evict_id. intros x Hx (Hux & Hsx & Hne).
    rewrite Hs in Hsx.
    by rewrite (join_unique st sid roomId username x Hx Hsx Hux) in Hne. }
  destruct (join_state st' sid roomId username)
    as (Hmap' & Hj' & Hs' & Hc' & Hu').
  destruct (join_log st' sid roomId username) as (Hlog' & Hlogs').
  rewrite Hid in Hmap', Hj'.
  assert (Hmem : members st' roomId = {[username]} ∪ members st roomId).
  { unfold members at 1. by rewrite Hu, lookup_insert_eq. }
  apply state_eq; try done.
  - rewrite Hmap', Hmap. apply insert_insert_eq.
  - rewrite Hu', Hmem, Hu, insert_insert_eq. f_equal. set_solver.
  - apply map_eq. intros k.
    destruct (decide (k = prop_key roomId)) as [->|Hk]; [|by apply Hlogs'].
    rewrite Hlog'. unfold lookup_messages. by rewrite Hlog.
  - rewrite Hj'. unfold join_room. rewrite decide_True; [done|].
    rewrite Hj, elem_of_join_room. by right.
Qed.

(** ** What [push] followed by [slice(-100)] keeps *)

Lemma push_bounded_snoc log m :
  push_bounded log m = drop (length log - 99) log ++ [m].
Proof.
  rewrite push_bounded_last_n. unfold last_n. rewrite length_app. simpl.
  rewrite drop_app_le by lia. f_equal. f_equal. lia.
Qed.

(** ** The code buffer between a change and a later JOIN *)

Lemma step_keeps_code k st ev :
  keeps_code k ev →
  roomCodeMap (step st ev).1 !! k = roomCodeMap st !! k.
Proof.
  destruct ev; cbn -[join disconnect connect sync_code]; intros Hk.
  { unfold connect. by case_decide. }
  all: case_decide; [|done]; try done.
  - by destruct (join_state st sid roomId username) as (_ & _ & _ & -> & _).
  - simpl. by rewrite lookup_insert_ne.
  - unfold sync_code. case_decide as Hcode; [|done].
    simpl. destruct Hk as [Hk| ->]; [|done]. by rewrite lookup_insert_ne.
Qed.

Lemma run_from_keeps_code k st tr :
  Forall (keeps_code k) tr →
  roomCodeMap (run_from st tr).1 !! k = roomCodeMap st !! k.
Proof.
  induction tr as [|ev tr IH] using rev_ind; intros Htr; [done|].
  apply Forall_app in Htr as [Htr Hev]. rewrite Forall_singleton in Hev.
  rewrite run_from_snoc. cbn [fst].
  rewrite step_keeps_code by done. by apply IH.
Qed.

(** X6. For a room whose property name is not inherited, a non-empty code
    sent by CODE_CHANGE is what a socket that joins the room later
    receives, whatever happened in between on rooms with such names, as
    long as nothing overwrote the room's buffer (a CODE_CHANGE, or a
    SYNC_CODE carrying code, for the same property name) and no socket
    disconnected; the two handlers and those of the events in between
    return normally.  The state before is one where no socket is in a room
    with an inherited name. *)
Theorem code_reaches_later_joiner (st : state) (editor : string)
    (roomId code : jsval) (between : list event)
    (joiner : string) (username : jsval) :
  plain roomId →
  plain_rooms st →
  truthy code = true →
  Forall plain_event between →
  Forall (keeps_code (prop_key roomId)) between →
  let st1 := (code_change st editor roomId code).1 in
  let st2 := (run_from st1 between).1 in
  returns_as (on_code_change st editor roomId code)
    (code_change st editor roomId code)
  ∧ returns_as (on_run_from st1 between) (run_from st1 between)
  ∧ returns_as (on_join st2 joiner roomId username)
      (join st2 joiner roomId username)
  ∧ (join st2 joiner roomId username).2
  = [ Emission (ToRoom roomId)
        (room_sockets (join st2 joiner roomId username).1 roomId)
        (Joined
           (getAllConnectedClients (join st2 joiner roomId username).1 roomId)
           username joiner);
      Emission (ToSocket joiner) [joiner] (CodeChange code) ].
Proof.
  intros Hp Hrooms Ht Hplain Hbetween st1 st2.
  assert (Hcode : lookup_code st2 roomId = code).
  { unfold lookup_code. subst st2.
    rewrite run_from_keeps_code by done.
    subst st1. simpl. by rewrite lookup_insert_eq. }
  split_and!.
  - by apply on_code_change_plain.
  - by apply on_run_from_plain.
  - by apply on_join_plain.
  - by rewrite join_out, Hcode, Ht.
Qed.

Lemma code_reaches_later_joiner_witness :
  Emission (ToSocket "b") ["b"] (CodeChange (JStr "x"))
  ∈ (join
       (run_from (code_change (run two_tabs).1 "a" (JStr "r1") (JStr "x")).1
          [ ESendMessage "a" (JStr "r1") (JStr "hi") (JStr "A") 10 10;
            ECodeChange "a" (JStr "r2") (JStr "y") ]).1
       "b" (JStr "r1") (JStr "B")).2.
Proof.
  destruct (code_reaches_later_joiner (run two_tabs).1 "a" (JStr "r1")
              (JStr "x")
              [ ESendMessage "a" (JStr "r1") (JStr "hi") (JStr "A") 10 10;
                ECodeChange "a" (JStr "r2") (JStr "y") ]
              "b" (JStr "B")) as (_ & _ & _ & Hout).
  - by_eval.
  - by_eval.
  - vm_compute. reflexivity.
  - by_eval.
  - by_eval.
  - rewrite Hout. right. by left.
Defined.

(** X7. The three per-room objects are indexed by property name.  For an
    event on a room [r1] whose property name is not inherited (the three
    handlers then return normally): rooms whose ids convert to a different
    property name keep their code, log and membership; rooms whose ids
    convert to the same name (a missing roomId and the room "undefined")
    share them, although the adapter keeps their sockets apart. *)
Theorem rooms_indexed_by_property_name (st : state) (sid : string)
    (r1 r2 code message username : jsval) (now ts : Z) :
  plain r1 →
  (returns_as (on_code_change st sid r1 code) (code_change st sid r1 code)
   ∧ returns_as (on_send_message st sid r1 message username now ts)
       (send_message st sid r1 message username now ts)
   ∧ returns_as (on_join st sid r1 username) (join st sid r1 username))
  ∧ (prop_key r1 ≠ prop_key r2 →
   lookup_code (code_change st sid r1 code).1 r2 = lookup_code st r2
   ∧ lookup_messages (send_message st sid r1 message username now ts).1 r2
     = lookup_messages st r2
   ∧ members (join st sid r1 username).1 r2 = members st r2)
  ∧ (prop_key r1 = prop_key r2 →
     lookup_code (code_change st sid r1 code).1 r2 = code
     ∧ last (lookup_messages
               (send_message st sid r1 message username now ts).1 r2)
       = Some (MessageData now username message ts)
     ∧ username ∈ members (join st sid r1 username).1 r2
     ∧ (r1 ≠ r2 →
        ∀ s, s ∈ room_sockets (join st sid r1 username).1 r2
             ↔ s ∈ room_sockets st r2)).
Proof.
  intros Hp.
  destruct (join_state st sid r1 username) as (_ & Hj & _ & _ & Hu).
  pose proof (foldl_evict_shrinks r1 username sid (room_sockets st r1) st)
    as (_ & _ & _ & _ & Hsub & Hkeep & _).
  split; [|split; intros Hk].
  - split_and!;
      [by apply on_code_change_plain | by apply on_send_message_plain
      | by apply on_join_plain].
  - split_and!.
    + unfold lookup_code. simpl. by rewrite lookup_insert_ne.
    + unfold lookup_messages. simpl. by rewrite lookup_insert_ne.
    + unfold members. rewrite Hu. by rewrite lookup_insert_ne.
  - split_and!.
    + unfold lookup_code. simpl. by rewrite <- Hk, lookup_insert_eq.
    + unfold lookup_messages at 1. simpl.
      rewrite <- Hk, lookup_insert_eq. simpl.
      rewrite push_bounded_snoc. apply last_snoc.
    + unfold members. rewrite Hu, <- Hk, lookup_insert_eq. simpl. set_solver.
    + intros Hr s. rewrite !elem_of_room_sockets, Hj, elem_of_join_room.
      split.
      * intros [Hin|[= ? ?]]; [by apply Hsub|congruence].
      * intros Hin. left. apply Hkeep; [done|]. left. simpl. congruence.
Qed.

Lemma rooms_indexed_by_property_name_witness :
  lookup_code (code_change (run pair).1 "a" JUndef (JStr "x")).1
    (JStr "undefined") = JStr "x"
  ∧ lookup_code (code_change (run pair).1 "a" (JStr "r2") (JStr "x")).1
      (JStr "r1") = lookup_code (run pair).1 (JStr "r1").
Proof.
  split.
  - destruct (rooms_indexed_by_property_name (run pair).1 "a" JUndef
                (JStr "undefined") (JStr "x") JUndef JUndef 0 0)
      as (_ & _ & Hsame); [by_eval|].
    apply Hsame. vm_compute. reflexivity.
  - destruct (rooms_indexed_by_property_name (run pair).1 "a" (JStr "r2")
                (JStr "r1") (JStr "x") JUndef JUndef 0 0)
      as (_ & Hother & _); [by_eval|].
    apply Hother. by_eval.
Defined.

(** ** Chat logs: bounded everywhere, first in first out *)

Lemma lookup_messages_bounded st r :
  logs_bounded st → length (lookup_messages st r) ≤ 100.
Proof.
  intros Hb. unfold lookup_messages.
  destruct (roomMessages st !! prop_key r) as [log|] eqn:Hlog; simpl.
  - by apply (Hb _ _ Hlog).
  - lia.
Qed.

Lemma step_logs_bounded st ev :
  logs_bounded st → logs_bounded (step st ev).1.
Proof.
  intros Hb. destruct ev; cbn -[join disconnect connect sync_code].
  { unfold connect. by case_decide. }
  all: case_decide; [|done]; try done.
  - destruct (join_log st sid roomId username) as (Hlog & Hlogs).
    intros k log. destruct (decide (k = prop_key roomId)) as [->|Hk].
    + rewrite Hlog. intros [= <-]. by apply lookup_messages_bounded.
    + rewrite Hlogs by done. apply Hb.
  - unfold sync_code. by case_decide.
  - intros k log. simpl.
    destruct (decide (prop_key roomId = k)) as [<-|Hk].
    + rewrite lookup_insert_eq. intros [= <-].
      rewrite push_bounded_last_n. apply last_n_length.
    + rewrite lookup_insert_ne by done. apply Hb.
  - destruct (disconnect_eq st sid) as (_ & _ & Hm & _).
    intros k log. rewrite Hm. intros Hlog.
    destruct (remove_all_together (lookup_user st sid)
                (active_rooms st sid (socket_rooms st sid)) st k)
      as [(_ & Hsame & _)|(_ & _ & Hnone)].
    + rewrite Hsame in Hlog. by apply (Hb _ _ Hlog).
    + congruence.
Qed.

Lemma step_replies_bounded st ev em ms :
  logs_bounded st →
  em ∈ (step st ev).2 → em_payload em = FetchMessages ms →
  length ms ≤ 100.
Proof.
  intros Hb. destruct ev; cbn -[join disconnect connect sync_code].
  { by intros ?%elem_of_nil. }
  all: case_decide; [|by intros ?%elem_of_nil].
  - rewrite join_out. intros [->|Hem]%elem_of_cons; [done|].
    destruct (truthy _); [|by apply elem_of_nil in Hem].
    by apply list_elem_of_singleton in Hem as ->.
  - by intros ->%list_elem_of_singleton.
  - unfold sync_code. simpl. destruct (truthy _); [|by intros ?%elem_of_nil].
    by intros ->%list_elem_of_singleton.
  - by intros ->%list_elem_of_singleton.
  - intros ->%list_elem_of_singleton [= <-].
    by apply lookup_messages_bounded.
  - destruct (disconnect_eq st sid) as (_ & _ & _ & _ & _ & _ & ->).
    by intros (r & -> & _)%list_elem_of_fmap.
Qed.

(** X8. In every reachable state every chat log holds at most 100
    messages, and no FETCH_MESSAGES reply the server ever sends carries
    more than 100 messages. *)
Theorem logs_never_exceed_capacity (tr : list event) :
  logs_bounded (run tr).1
  ∧ ∀ em ms, em ∈ (run tr).2 → em_payload em = FetchMessages ms →
             length ms ≤ 100.
Proof.
  induction tr as [|ev tr [IHst IHout]] using rev_ind.
  - split; [by intros k log; vm_compute|].
    by intros em ms ?%elem_of_nil.
  - rewrite run_snoc. cbn [fst snd]. split.
    + by apply step_logs_bounded.
    + intros em ms [Hem|Hem]%elem_of_app Hp.
      * by apply (IHout em).
      * by apply (step_replies_bounded (run tr).1 ev em).
Qed.

(** X9. SEND_MESSAGE on a room whose property name is not inherited returns
    normally and is first in, first out: the message relayed to the room
    is the last one of the log afterwards; below capacity the log only
    grows by that message (an absent log counts as empty); at capacity
    exactly the oldest message is dropped. *)
Theorem send_message_fifo (st : state) (sid : string)
    (roomId message username : jsval) (now ts : Z) :
  plain roomId →
  let m := MessageData now username message ts in
  let log := lookup_messages st roomId in
  let sent := send_message st sid roomId message username now ts in
  returns_as (on_send_message st sid roomId message username now ts) sent
  ∧ (∃ rcpts, sent.2 = [Emission (ToRoom roomId) rcpts (ReceiveMessage m)])
  ∧ last (lookup_messages sent.1 roomId) = Some m
  ∧ (length log < 100 → lookup_messages sent.1 roomId = log ++ [m])
  ∧ (length log = 100 → lookup_messages sent.1 roomId = drop 1 log ++ [m]).
Proof.
  intros Hp m log sent.
  assert (Hlog : lookup_messages sent.1 roomId
                 = drop (length log - 99) log ++ [m]).
  { unfold lookup_messages at 1. subst sent. simpl. rewrite lookup_insert_eq.
    simpl. apply push_bounded_snoc. }
  rewrite Hlog. split_and!.
  - by apply on_send_message_plain.
  - by eexists.
  - apply last_snoc.
  - intros Hlen. by replace (length log - 99) with 0 by lia.
  - intros Hlen. by replace (length log - 99) with 1 by lia.
Qed.

Lemma send_message_fifo_witness :
  lookup_messages
    (send_message (run demo).1 "a" (JStr "r1") (JStr "yo") (JStr "A") 11 11).1
    (JStr "r1")
  = lookup_messages (run demo).1 (JStr "r1")
    ++ [MessageData 11 (JStr "A") (JStr "yo") 11].
Proof.
  destruct (send_message_fifo (run demo).1 "a" (JStr "r1") (JStr "yo")
              (JStr "A") 11 11) as (_ & _ & _ & Hgrow & _); [by_eval|].
  apply Hgrow. vm_compute. lia.
Defined.

(** ** Disconnect: what goes, what stays *)

Lemma run_sets_nonempty tr : sets_nonempty (run tr).1.
Proof.
  induction tr as [|ev tr IH] using rev_ind.
  - intros k users. by vm_compute.
  - rewrite run_snoc. cbn [fst]. by apply step_nonempty.
Qed.

Lemma remove_member_keeps st r u v r' :
  v ≠ u → v ∈ members st r' → v ∈ members (remove_member st r u) r'.
Proof.
  intros Hne. unfold members.
  destruct (decide (prop_key r = prop_key r')) as [Hk|Hk].
  - unfold remove_member. rewrite <- Hk.
    destruct (roomUsers st !! prop_key r) as [users|] eqn:Hs;
      [|by rewrite Hs].
    simpl. intros Hv. case_decide as Hsz; simpl.
    + apply size_empty_inv in Hsz. set_solver.
    + rewrite lookup_insert_eq. simpl. set_solver.
  - by destruct (remove_member_other_key st r u _ Hk) as (-> & _).
Qed.

Lemma remove_all_keeps u l st v r' :
  v ≠ u → v ∈ members st r' →
  v ∈ members (foldl (λ s r, remove_member s r u) st l) r'.
Proof.
  intros Hne. revert st. induction l as [|r l IH]; intros st Hv; simpl.
  - done.
  - by apply IH, remove_member_keeps.
Qed.

(** X10. A disconnect removes from membership sets nothing but the username
    the registry holds for the disconnecting socket: any other username is
    a member of a room afterwards exactly if it was before. *)
Theorem disconnect_removes_own_username_only (st : state) (sid : string)
    (roomId v : jsval) :
  v ≠ lookup_user st sid →
  v ∈ members (disconnect st sid).1 roomId ↔ v ∈ members st roomId.
Proof.
  intros Hne. destruct (disconnect_eq st sid) as (Hu & _).
  unfold members at 1. rewrite Hu.
  fold (members (foldl (λ s r, remove_member s r (lookup_user st sid)) st
                   (active_rooms st sid (socket_rooms st sid))) roomId).
  split.
  - apply remove_all_subseteq.
  - by apply remove_all_keeps.
Qed.

Lemma disconnect_removes_own_username_only_witness :
  JStr "B" ∈ members (disconnect (run pair).1 "a").1 (JStr "r1")
  ↔ JStr "B" ∈ members (run pair).1 (JStr "r1").
Proof.
  apply (disconnect_removes_own_username_only (run pair).1 "a" (JStr "r1")
           (JStr "B")).
  by_eval.
Defined.

(** X11. After a disconnect the socket is forgotten: it is no longer
    connected, it is in no room, the registry has no entry for it, and none
    of the DISCONNECTED events went to it.  Every other socket keeps its
    registry entry, its rooms and its connection. *)
Theorem disconnect_forgets_socket (st : state) (sid : string) :
  let st' := (disconnect st sid).1 in
  (sid ∉ sockets st')
  ∧ socket_rooms st' sid = []
  ∧ userSocketMap st' !! sid = None
  ∧ (∀ em, em ∈ (disconnect st sid).2 → sid ∉ em_recipients em)
  ∧ (∀ s, s ≠ sid →
          userSocketMap st' !! s = userSocketMap st !! s
          ∧ socket_rooms st' s = socket_rooms st s
          ∧ (s ∈ sockets st' ↔ s ∈ sockets st)).
Proof.
  intros st'.
  destruct (disconnect_eq st sid) as (_ & _ & _ & Hmap & Hj & Hs & Hout).
  destruct (remove_all_frame (lookup_user st sid)
              (active_rooms st sid (socket_rooms st sid)) st)
    as (Hmap' & Hs' & Hj').
  rewrite Hmap' in Hmap. rewrite Hj' in Hj. rewrite Hs' in Hs.
  fold st' in Hmap, Hj, Hs.
  split_and!.
  - rewrite Hs, list_elem_of_filter. naive_solver.
  - apply elem_of_nil_inv. intros r.
    rewrite elem_of_socket_rooms, Hj, list_elem_of_filter. naive_solver.
  - rewrite Hmap. apply lookup_delete_eq.
  - intros em. rewrite Hout. intros (r & -> & _)%list_elem_of_fmap.
    simpl. rewrite list_elem_of_filter. naive_solver.
  - intros s Hne. split_and!.
    + rewrite Hmap. by apply lookup_delete_ne.
    + unfold socket_rooms. rewrite Hj. f_equal.
      apply list_filter_filter_l. intros [r s']. simpl. congruence.
    + rewrite Hs, list_elem_of_filter. naive_solver.
Qed.

(** X12. The last member leaves.  In a reachable state, a socket is in a
    room other than its private one, no other socket of the room carries
    its username, and that username is the room's only member.  After the
    socket disconnects, the room has no membership set, no code and no log:
    a FETCH_MESSAGES for the room is answered with the empty list and a
    later JOIN sends the JOINED event only, no code. *)
Theorem last_member_leaves (tr : list event) (sid : string) (roomId : jsval)
    (reader : string) (joiner : string) (name : jsval) :
  let st := (run tr).1 in
  roomId ∈ socket_rooms st sid →
  roomId ≠ JStr sid →
  hasOtherConnections st sid roomId = false →
  members st roomId = {[lookup_user st sid]} →
  let st' := (disconnect st sid).1 in
  roomUsers st' !! prop_key roomId = None
  ∧ roomCodeMap st' !! prop_key roomId = None
  ∧ roomMessages st' !! prop_key roomId = None
  ∧ (fetch_messages st' reader roomId).2
    = [Emission (ToSocket reader) [reader] (FetchMessages [])]
  ∧ ∃ rcpts clients,
      (join st' joiner roomId name).2
      = [Emission (ToRoom roomId) rcpts (Joined clients name joiner)].
Proof.
  intros st Hin Hown Hother Hmem st'.
  destruct (disconnect_eq st sid) as (Hu & Hc & Hm & _).
  fold st' in Hu, Hc, Hm.
  set (u := lookup_user st sid) in *.
  set (rm := foldl (λ s r, remove_member s r u) st
               (active_rooms st sid (socket_rooms st sid))) in *.
  assert (Hact : roomId ∈ active_rooms st sid (socket_rooms st sid))
    by (by apply elem_of_active_rooms).
  assert (Hempty : members rm roomId = ∅).
  { pose proof (remove_all_gone u _ st roomId Hact) as Hgone.
    pose proof (remove_all_subseteq u
                  (active_rooms st sid (socket_rooms st sid)) st roomId)
      as Hsub.
    fold rm in Hgone, Hsub. rewrite Hmem in Hsub. set_solver. }
  assert (Hnone : roomUsers rm !! prop_key roomId = None).
  { destruct (roomUsers rm !! prop_key roomId) as [users|] eqn:Hs; [|done].
    exfalso.
    apply (remove_all_nonempty u
             (active_rooms st sid (socket_rooms st sid)) st
             (run_sets_nonempty tr) _ _ Hs).
    unfold members in Hempty. by rewrite Hs in Hempty. }
  assert (Hsome : roomUsers st !! prop_key roomId ≠ None).
  { intros Hs. unfold members in Hmem. rewrite Hs in Hmem. simpl in Hmem.
    set_solver. }
  destruct (remove_all_together u
              (active_rooms st sid (socket_rooms st sid)) st
              (prop_key roomId))
    as [(_ & _ & Hiff)|(_ & Hcode & Hlog)].
  { fold rm in Hiff. by apply Hiff in Hnone. }
  fold rm in Hcode, Hlog.
  assert (Hcode' : lookup_code st' roomId = JUndef).
  { unfold lookup_code. by rewrite Hc, Hcode. }
  split_and!.
  - by rewrite Hu.
  - by rewrite Hc.
  - by rewrite Hm.
  - assert (Hlm : lookup_messages st' roomId = [])
      by (unfold lookup_messages; by rewrite Hm, Hlog).
    unfold fetch_messages, emit. cbn [snd recipients]. by rewrite Hlm.
  - rewrite join_out, Hcode'. simpl. by eexists _, _.
Qed.

Lemma last_member_leaves_witness :
  roomUsers (disconnect (run solo).1 "a").1 !! "r1" = None
  ∧ roomCodeMap (disconnect (run solo).1 "a").1 !! "r1" = None
  ∧ roomMessages (disconnect (run solo).1 "a").1 !! "r1" = None
  ∧ (fetch_messages (disconnect (run solo).1 "a").1 "b" (JStr "r1")).2
    = [Emission (ToSocket "b") ["b"] (FetchMessages [])]
  ∧ ∃ rcpts clients,
      (join (disconnect (run solo).1 "a").1 "b" (JStr "r1") (JStr "B")).2
      = [Emission (ToRoom (JStr "r1")) rcpts
           (Joined clients (JStr "B") "b")].
Proof.
  apply (last_member_leaves solo "a" (JStr "r1") "b" "b" (JStr "B")).
  - by_eval.
  - by_eval.
  - vm_compute. reflexivity.
  - vm_compute. reflexivity.
Defined.

(** ** Reachable states mention connected sockets only *)

Lemma step_connected_only st ev :
  connected_only st → connected_only (step st ev).1.
Proof.
  intros (Hreg & Hroom & Hnds & Hndj).
  assert (Hndj' : NoDup (joined (step st ev).1)) by (by apply step_NoDup).
  destruct ev; cbn -[join disconnect connect sync_code] in *.
  { unfold connect in *. case_decide as Hin; [done|]. simpl in *.
    unfold connected_only. simpl. split_and!; [| | |done].
    - intros s Hs. apply elem_of_app. left. by apply Hreg.
    - intros r s. rewrite elem_of_room_sockets. simpl.
      rewrite elem_of_join_room, elem_of_app.
      intros [Hs|[= _ ->]].
      + left. by apply (Hroom r), elem_of_room_sockets.
      + right. by apply list_elem_of_singleton.
    - apply NoDup_app. split_and!; [done| |apply NoDup_singleton].
      intros x Hx ->%list_elem_of_singleton. done. }
  all: case_decide as Hconn; [|done]; try done.
  - destruct (join_state st sid roomId username) as (Hmap & Hj & Hs & _).
    pose proof (foldl_evict_shrinks roomId username sid
                  (room_sockets st roomId) st)
      as (_ & _ & _ & _ & Hsub & _ & Hx & _).
    unfold connected_only. rewrite Hs. split_and!; [| |done|done].
    + intros s. rewrite Hmap.
      destruct (decide (s = sid)) as [->|Hne]; [done|].
      rewrite lookup_insert_ne by done. intros Hsome. apply Hreg.
      destruct (Hx s) as [Hnone|Hsame]; [|by rewrite <- Hsame].
      rewrite Hnone in Hsome. by destruct Hsome.
    + intros r s. rewrite elem_of_room_sockets, Hj, elem_of_join_room.
      intros [Hin|[= _ ->]]; [|done].
      by apply (Hroom r), elem_of_room_sockets, Hsub.
  - unfold sync_code in *. by case_decide.
  - destruct (disconnect_eq st sid) as (_ & _ & _ & Hmap & Hj & Hs & _).
    destruct (remove_all_frame (lookup_user st sid)
                (active_rooms st sid (socket_rooms st sid)) st)
      as (Hmap' & Hs' & Hj').
    rewrite Hmap' in Hmap. rewrite Hj' in Hj. rewrite Hs' in Hs.
    unfold connected_only. rewrite Hs. split_and!; [| | |done].
    + intros s. rewrite Hmap, list_elem_of_filter.
      destruct (decide (s = sid)) as [->|Hne].
      * rewrite lookup_delete_eq. by intros [? ?].
      * rewrite lookup_delete_ne by done. intros Hsome.
        split; [done|by apply Hreg].
    + intros r s. rewrite elem_of_room_sockets, Hj, !list_elem_of_filter.
      simpl. intros [Hne Hin]. split; [done|].
      by apply (Hroom r), elem_of_room_sockets.
    + by apply NoDup_filter.
Qed.

(** X13. In every reachable state the registry and the rooms of the adapter
    mention connected sockets only (a disconnect leaves nothing of the
    socket behind), and neither the socket table nor the adapter holds a
    duplicate. *)
Theorem reachable_states_connected_only (tr : list event) :
  connected_only (run tr).1.
Proof.
  induction tr as [|ev tr IH] using rev_ind.
  - unfold connected_only. split_and!.
    + intros s [v Hv]. by vm_compute in Hv.
    + by intros r s ?%elem_of_nil.
    + apply NoDup_nil_2.
    + apply NoDup_nil_2.
  - rewrite run_snoc. cbn [fst]. by apply step_connected_only.
Qed.

(** ** The chat panel follows the server's log *)

Lemma chat_view_snoc c messages out em :
  chat_view c messages (out ++ [em])
  = if decide (c ∈ em_recipients em)
    then chat_on (chat_view c messages out) (em_payload em)
    else chat_view c messages out.
Proof. unfold chat_view. by rewrite foldl_app. Qed.

Lemma chat_view_app c messages out1 out2 :
  chat_view c messages (out1 ++ out2)
  = chat_view c (chat_view c messages out1) out2.
Proof. unfold chat_view. by rewrite foldl_app. Qed.

Lemma run_from_sends st roomId sends :
  Forall (is_send_to roomId) sends →
  joined (run_from st sends).1 = joined st
  ∧ sockets (run_from st sends).1 = sockets st.
Proof.
  induction sends as [|ev sends IH] using rev_ind; intros Hs; [done|].
  apply Forall_app in Hs as [Hs Hev]. rewrite Forall_singleton in Hev.
  destruct (IH Hs) as [Hj Hso].
  rewrite run_from_snoc. cbn [fst].
  destruct ev; try done. cbn. by case_decide.
Qed.

Lemma run_from_acc st out tr :
  foldl (λ acc ev, let r := step acc.1 ev in (r.1, acc.2 ++ r.2)) (st, out) tr
  = ((run_from st tr).1, out ++ (run_from st tr).2).
Proof.
  induction tr as [|ev tr IH] using rev_ind.
  - cbn. by rewrite app_nil_r.
  - rewrite run_from_snoc, foldl_app, IH. cbn. by rewrite app_assoc.
Qed.

Lemma run_from_cons st ev tr :
  run_from st (ev :: tr)
  = ((run_from (step st ev).1 tr).1,
     (step st ev).2 ++ (run_from (step st ev).1 tr).2).
Proof.
  unfold run_from at 1. cbn [foldl]. cbn [fst snd app].
  destruct (step st ev) as [st1 out1]. apply run_from_acc.
Qed.

Lemma step_send st sid r m u now ts :
  step st (ESendMessage sid r m u now ts)
  = if decide (sid ∈ sockets st) then send_message st sid r m u now ts
    else (st, []).
Proof. reflexivity. Qed.

Lemma step_fetch st sid r :
  step st (EFetchMessages sid r)
  = if decide (sid ∈ sockets st) then fetch_messages st sid r else (st, []).
Proof. reflexivity. Qed.

Lemma send_message_out st sid r m u now ts :
  (send_message st sid r m u now ts).2
  = [Emission (ToRoom r) (room_sockets st r)
       (ReceiveMessage (MessageData now u m ts))].
Proof. reflexivity. Qed.

(** What the panel of a socket of the room has appended, and what the
    server has kept, after a series of SEND_MESSAGE events for the room. *)
Lemma sends_follow st c r sends :
  c ∈ room_sockets st r →
  length (lookup_messages st r) ≤ 100 →
  Forall (is_send_to r) sends →
  ∃ relayed,
    (∀ base, chat_view c base (run_from st sends).2 = base ++ relayed)
    ∧ lookup_messages (run_from st sends).1 r
      = last_n 100 (lookup_messages st r ++ relayed).
Proof.
  intros Hin Hlen. induction sends as [|ev sends IH] using rev_ind; intros Hs.
  - exists []. split.
    + intros base. cbn. by rewrite app_nil_r.
    + cbn [run_from foldl fst]. rewrite app_nil_r. unfold last_n.
      by replace (length (lookup_messages st r) - 100) with 0 by lia.
  - apply Forall_app in Hs as [Hs Hev]. rewrite Forall_singleton in Hev.
    destruct (IH Hs) as (relayed & Hview & Hlog).
    destruct (run_from_sends st r sends Hs) as [Hj _].
    rewrite run_from_snoc.
    destruct ev as [| | | |sid r' m u now ts| |]; try done.
    simpl in Hev. subst r'. rewrite step_send.
    destruct (decide (sid ∈ sockets (run_from st sends).1)) as [Hsid|Hsid].
    + exists (relayed ++ [MessageData now u m ts]). split.
      * intros base. cbn [snd]. rewrite send_message_out, chat_view_snoc.
        cbn [em_recipients em_payload].
        rewrite decide_True.
        2:{ apply elem_of_room_sockets. rewrite Hj.
            by apply elem_of_room_sockets. }
        cbn [chat_on]. unfold handleNewMessage.
        by rewrite Hview, app_assoc.
      * cbn [fst]. rewrite lookup_messages_send, Hlog.
        rewrite last_n_snoc by lia. by rewrite app_assoc.
    + exists relayed. cbn [fst snd]. rewrite app_nil_r. done.
Qed.

(** X14. A socket of a room asks for the history and then stays while
    messages are sent to the room.  Its chat panel, which replaces its list
    on the FETCH_MESSAGES reply and appends every RECEIVE_MESSAGE, then
    shows the fetched log followed by the messages relayed since, and the
    server's log is the last 100 entries of that list. *)
Theorem chat_panel_follows_log (st : state) (c : string) (roomId : jsval)
    (shown : list messageData) (sends : list event) :
  c ∈ sockets st →
  c ∈ room_sockets st roomId →
  length (lookup_messages st roomId) ≤ 100 →
  Forall (is_send_to roomId) sends →
  let session := run_from st (EFetchMessages c roomId :: sends) in
  let view := chat_view c shown session.2 in
  (∃ relayed, view = lookup_messages st roomId ++ relayed)
  ∧ lookup_messages session.1 roomId = last_n 100 view.
Proof.
  intros Hc Hin Hlen Hsends session view. subst view session.
  destruct (sends_follow st c roomId sends Hin Hlen Hsends)
    as (relayed & Hview & Hlog).
  assert (Hfetch :
    chat_view c shown
      [emit st (ToSocket c) (FetchMessages (lookup_messages st roomId))]
    = lookup_messages st roomId).
  { unfold chat_view. cbn [foldl emit recipients em_recipients em_payload].
    rewrite decide_True by (by apply list_elem_of_singleton). done. }
  rewrite run_from_cons, step_fetch, decide_True by done.
  unfold fetch_messages. cbn [fst snd].
  rewrite chat_view_app, Hfetch, Hview, Hlog.
  split; [by exists relayed|done].
Qed.

Lemma chat_panel_follows_log_witness :
  lookup_messages
    (run_from (run demo).1
       [ EFetchMessages "a" (JStr "r1");
         ESendMessage "b" (JStr "r1") (JStr "yo") (JStr "B") 11 11 ]).1
    (JStr "r1")
  = last_n 100
      (chat_view "a" []
         (run_from (run demo).1
            [ EFetchMessages "a" (JStr "r1");
              ESendMessage "b" (JStr "r1") (JStr "yo") (JStr "B") 11 11 ]).2).
Proof.
  apply (chat_panel_follows_log (run demo).1 "a" (JStr "r1") []
           [ ESendMessage "b" (JStr "r1") (JStr "yo") (JStr "B") 11 11 ]).
  - by_eval.
  - by_eval.
  - vm_compute. lia.
  - by_eval.
Defined.

(** ** JOIN evicts sockets of the same user only *)

Lemma foldl_evict_spares r u self l st x :
  lookup_user st x ≠ u →
  let st' := foldl (evict r u self) st l in
  userSocketMap st' !! x = userSocketMap st !! x
  ∧ ∀ r', (r', x) ∈ joined st → (r', x) ∈ joined st'.
Proof.
  revert st. induction l as [|y l IH]; intros st Hx; simpl; [done|].
  assert (Hstep : userSocketMap (evict r u self st y) !! x
                  = userSocketMap st !! x
                  ∧ ∀ r', (r', x) ∈ joined st →
                          (r', x) ∈ joined (evict r u self st y)).
  { unfold evict. destruct (decide (lookup_user st y = u)) as [Hy|]; [|done].
    case_decide; [|done]. simpl.
    assert (y ≠ x) by congruence. split.
    - by apply lookup_delete_ne.
    - intros r' Hin. apply elem_of_leave_room. split; [done|]. congruence. }
  destruct Hstep as [Hentry Hrooms].
  destruct (IH (evict r u self st y)) as [Hentry' Hrooms'].
  { unfold lookup_user in *. by rewrite Hentry. }
  split; [congruence|]. intros r' Hin. by apply Hrooms', Hrooms.
Qed.

(** X15. JOIN evicts nobody else: a socket that is registered under another
    username than the joining one (and is not the joining socket) stays in
    all its rooms and keeps its registry entry. *)
Theorem join_spares_other_users (st : state) (sid : string)
    (roomId username : jsval) (x : string) :
  x ≠ sid →
  lookup_user st x ≠ username →
  let st' := (join st sid roomId username).1 in
  lookup_user st' x = lookup_user st x
  ∧ ∀ r, x ∈ room_sockets st r → x ∈ room_sockets st' r.
Proof.
  intros Hne Hx st'.
  destruct (join_state st sid roomId username) as (Hmap & Hj & _).
  destruct (foldl_evict_spares roomId username sid
              (room_sockets st roomId) st x Hx) as [Hentry Hrooms].
  fold st' in Hmap, Hj. split.
  - unfold lookup_user. by rewrite Hmap, lookup_insert_ne, Hentry.
  - intros r. rewrite !elem_of_room_sockets, Hj, elem_of_join_room.
    intros Hin. left. by apply Hrooms.
Qed.

Lemma join_spares_other_users_witness :
  lookup_user (join (run pair).1 "b" (JStr "r1") (JStr "B")).1 "a"
  = lookup_user (run pair).1 "a"
  ∧ "a" ∈ room_sockets (join (run pair).1 "b" (JStr "r1") (JStr "B")).1
            (JStr "r1").
Proof.
  destruct (join_spares_other_users (run pair).1 "b" (JStr "r1") (JStr "B")
              "a") as [Hname Hrooms].
  - by_eval.
  - by_eval.
  - split; [exact Hname|]. apply Hrooms. by_eval.
Defined.

(** ** The history of a room is never rewritten *)

(** X16. Whatever the event, the chat log stored under a property name is
    afterwards either gone, or a suffix of what it was (an absent log
    counting as empty) followed by at most one new message: stored messages
    are never edited, reordered or inserted in the middle. *)
Theorem log_history_is_append_only (st : state) (ev : event) (k : string) :
  let before := default [] (roomMessages st !! k) in
  roomMessages (step st ev).1 !! k = None
  ∨ ∃ n new,
      roomMessages (step st ev).1 !! k = Some (drop n before ++ new)
      ∧ length new ≤ 1.
Proof.
  intros before.
  assert (Hsame : ∀ st', roomMessages st' !! k = roomMessages st !! k →
    roomMessages st' !! k = None
    ∨ ∃ n new, roomMessages st' !! k = Some (drop n before ++ new)
               ∧ length new ≤ 1).
  { intros st' ->. subst before.
    destruct (roomMessages st !! k) as [log|]; [|by left].
    right. exists 0, []. simpl. rewrite app_nil_r. split; [done|lia]. }
  destruct ev; cbn -[join disconnect connect sync_code].
  { apply Hsame. unfold connect. by case_decide. }
  all: case_decide; [|by apply Hsame].
  - destruct (join_log st sid roomId username) as (Hlog & Hlogs).
    destruct (decide (k = prop_key roomId)) as [->|Hk];
      [|by apply Hsame, Hlogs].
    right. exists 0, []. rewrite Hlog. simpl. rewrite app_nil_r.
    split; [done|lia].
  - by apply Hsame.
  - apply Hsame. unfold sync_code. by case_decide.
  - destruct (decide (prop_key roomId = k)) as [<-|Hk].
    + right. eexists _, [_]. simpl. rewrite lookup_insert_eq.
      split; [|simpl; lia]. f_equal. apply push_bounded_snoc.
    + apply Hsame. simpl. by rewrite lookup_insert_ne.
  - by apply Hsame.
  - destruct (disconnect_eq st sid) as (_ & _ & Hm & _). rewrite Hm.
    destruct (remove_all_together (lookup_user st sid)
                (active_rooms st sid (socket_rooms st sid)) st k)
      as [(_ & Heq & _)|(_ & _ & Hnone)]; [|by left].
    rewrite Heq. apply (Hsame st). done.
Qed.

(** ** Sessions and the prototype chain *)

(** X18. A session whose events name no room with an inherited property
    name is handled without exception from start to end, and its state and
    the events it sends are those of [run]. *)
Theorem plain_sessions_return (tr : list event) :
  Forall plain_event tr → returns_as (on_run tr) (run tr).
Proof.
  intros Htr. by apply on_run_from_plain; [|apply plain_rooms_initial].
Qed.

Lemma plain_sessions_return_witness : returns_as (on_run demo) (run demo).
Proof. apply (plain_sessions_return demo). by_eval. Defined.

(** X19. A JOIN of the room "constructor" raises at [roomUsers[roomId].add]
    after the socket was registered and entered the adapter's room: nothing
    is sent, no membership set and no chat log exist, and the chat message
    that follows in the session is not handled. *)
Theorem inherited_join_raises :
  on_run inherited_join
  = Throws
      (set_joined (join_room (JStr "constructor") "a")
         (set_userSocketMap <["a" := JStr "A"]> (connect initial "a")))
      []
  ∧ ¬ plain (JStr "constructor")
  ∧ (∀ st out, on_run inherited_join = Throws st out →
       lookup_user st "a" = JStr "A"
       ∧ room_sockets st (JStr "constructor") = ["a"]
       ∧ roomUsers st = ∅
       ∧ roomMessages st = ∅).
Proof.
  assert (Hrun : on_run inherited_join
    = Throws
        (set_joined (join_room (JStr "constructor") "a")
           (set_userSocketMap <["a" := JStr "A"]> (connect initial "a")))
        []) by (vm_compute; reflexivity).
  split_and!; [done | by_eval |].
  intros st out. rewrite Hrun. intros [= <- <-]. by vm_compute.
Qed.
